(** * Cumulative GPA pipeline: a shallow embedding of
      [scripts/compute_cumulative_gpa.py] and the properties of its
      four core stages.

    Conventions of the embedding.
    - A pandas data frame is a [list] of row records, in row order.
    - A numeric cell is a [float64] whose missing value is [NaN].  The
      stages are modelled on cells [option Qc]: [None] is the missing
      value, [Some q] an exact rational.  What is proved on this model
      about sums compares sums of the same cells taken in the same order,
      so that it uses no law of addition that [float64] lacks.
    - What turns on [float64] arithmetic itself (the order of the terms
      of a sum, an overflow, an infinity times zero) and on the numeric
      coercion of a text cell is stated on the IEEE 754 binary64 values of
      module [Float64].
    - A [.loc[mask, col] = v] statement is a guarded assignment on each
      row; a chain of such statements is a chain of [assign_if]. *)

From Stdlib Require Import ZArith QArith Qcanon Lia Bool.
From Stdlib Require Import Strings.String Strings.Ascii.
From Stdlib Require Import Floats.SpecFloat.
From stdpp Require Import base list sorting numbers strings.

Local Open Scope string_scope.

(** ** Cells *)

Definition cell := option Qc.

Definition isna {A} (c : option A) : bool :=
  match c with None => true | Some _ => false end.

Definition fillna (d : Qc) (c : cell) : cell :=
  match c with None => Some d | Some _ => c end.

Definition Qc_eqb (x y : Qc) : bool := Qeq_bool x y.

(** [==] on a numeric column: a missing value compares unequal. *)
Definition cell_eqb (c : cell) (q : Qc) : bool :=
  match c with None => false | Some x => Qc_eqb x q end.

(** Element-wise product of two float columns: a missing operand gives a
    missing result. *)
Definition cell_mul (a b : cell) : cell :=
  match a, b with
  | Some x, Some y => Some (x * y)%Qc
  | _, _ => None
  end.

(** ** The coursegrade record (columns after the rename of lines 234-249) *)

Record coursegrade := mkCoursegrade {
  school_year : option Z;
  student_id : option Z;
  course_code : string;
  subject : string;
  course_description : string;
  credits : cell;
  mark : option string;
  grade_average_factor : cell;
  grade_averaged_flag : cell;
  is_passing : cell;
  numeric_equivalent : cell
}.

(** ** Course Attribute Deriver (lines 136-180) *)

Module Deriver.

(** [s.str.slice(a, b)]: the characters at positions [a] to [b-1], cut at
    the end of the string. *)
Definition str_slice (a b : nat) (s : string) : string :=
  substring a (b - a) s.

Definition isin (s : string) (l : list string) : bool :=
  existsb (String.eqb s) l.

(** [df.loc[mask, col] = v] on one row. *)
Definition assign_if (mask : bool) (v cur : string) : string :=
  if mask then v else cur.

(** Lines 139-157: the table on the first character. *)
Definition subject_base (first : string) : string :=
  let s := "" in
  let s := assign_if (first =? "E") "English" s in
  let s := assign_if (first =? "H") "Social Studies" s in
  let s := assign_if (first =? "M") "Mathematics" s in
  let s := assign_if (first =? "S") "Science" s in
  let s := assign_if (first =? "F") "Foreign Language" s in
  let s := assign_if (first =? "P") "Physical Education & Health" s in
  let s := assign_if (isin first ["A"; "U"; "D"; "C"]) "Arts" s in
  let s := assign_if (first =? "T") "Technology" s in
  let s := assign_if (first =? "R") "Career Development" s in
  let s := assign_if (first =? "B") "Business" s in
  let s := assign_if (first =? "K") "Human Services" s in
  let s := assign_if (first =? "G") "Guidance" s in
  let s := assign_if (first =? "Z") "Undefined" s in
  s.

(** Lines 163-172: the table on the sixth character. *)
Definition description_base (sixth : string) : string :=
  let d := "" in
  let d := assign_if (sixth =? "H") "Honors" d in
  let d := assign_if (sixth =? "X") "Advanced Placement (AP)" d in
  let d := assign_if (sixth =? "B") "International Baccalaureate (IB)" d in
  let d := assign_if (sixth =? "U") "College-Level: College Credit" d in
  let d := assign_if (sixth =? "C") "College-Level: Non-College Credit" d in
  let d := assign_if (sixth =? "T") "CTE" d in
  let d := assign_if (sixth =? "S") "Non-Credit/Remediation" d in
  let d := assign_if (sixth =? "P") "Exam Preparation" d in
  let d := assign_if (sixth =? "Q") "N/A" d in
  d.

(** Lines 141-160: [subject] of one course code. *)
Definition derive_subject (code : string) : string :=
  let first := str_slice 0 1 code in
  let fourth := str_slice 3 4 code in
  let s := subject_base first in
  let s := assign_if (fourth =? "J") "" s in
  s.

(** Lines 142-143 and 163-178: [course_description] of one course code. *)
Definition derive_description (code : string) : string :=
  let sixth := str_slice 5 6 code in
  let fourth := str_slice 3 4 code in
  let d := description_base sixth in
  let d := assign_if (fourth =? "J") "" d in
  let d := assign_if ((sixth =? "A") && (fourth =? "M")) "Accelerated" d in
  let d := assign_if (isin sixth ["X"; "B"; "U"; "C"; "P"] && (fourth =? "M")) "" d in
  d.

Definition derive_row (r : coursegrade) : coursegrade :=
  mkCoursegrade (school_year r) (student_id r) (course_code r)
    (derive_subject (course_code r)) (derive_description (course_code r))
    (credits r) (mark r) (grade_average_factor r) (grade_averaged_flag r)
    (is_passing r) (numeric_equivalent r).

Definition derive_subject_and_description (df : list coursegrade)
  : list coursegrade :=
  map derive_row df.

End Deriver.

(** ** Frame operations shared by the stages *)

Module Frame.

Section Sorting.
Context {R K : Type} (key : R -> K) (leb : K -> K -> bool).

(** [df.sort_values(by)] on several columns is a stable sort: rows whose
    keys tie keep the order they had in the input. *)
Fixpoint insert_sorted (x : R) (l : list R) : list R :=
  match l with
  | [] => [x]
  | y :: l' =>
      if leb (key x) (key y) then x :: y :: l' else y :: insert_sorted x l'
  end.

Definition sort_values (l : list R) : list R := foldr insert_sorted [] l.

Context `{EqDecision K}.

(** [df.drop_duplicates(subset, keep="first")]: a row is dropped when an
    earlier row has the same key. *)
Fixpoint drop_duplicates_seen (seen : list K) (l : list R) : list R :=
  match l with
  | [] => []
  | r :: l' =>
      if decide (key r ∈ seen) then drop_duplicates_seen seen l'
      else r :: drop_duplicates_seen (key r :: seen) l'
  end.

Definition drop_duplicates (l : list R) : list R :=
  drop_duplicates_seen [] l.

(** The rows of [l] carrying key [k], in frame order. *)
Definition rows_of (k : K) (l : list R) : list R :=
  filter (fun r => key r = k) l.
End Sorting.

Section GroupBy.
Context {R K : Type} (key : R -> K) (le : relation K).
Context `{!RelDecision le} `{EqDecision K}.

(** [df.groupby(by, dropna=False)]: one group per distinct key, missing
    keys included, the groups in increasing key order. *)
Definition group_keys (l : list R) : list K :=
  merge_sort le (remove_dups (key <$> l)).

Definition groupby (l : list R) : list (K * list R) :=
  (fun k => (k, rows_of key k l)) <$> group_keys l.
End GroupBy.

(** [.sum(min_count=1)] on one column of one group: missing values are
    skipped, the observed ones are counted and added up, and the result is
    missing when fewer than [min_count] values were observed. *)
Definition sum_step (acc : nat * Qc) (c : cell) : nat * Qc :=
  match c with
  | None => acc
  | Some v => (S (fst acc), (snd acc + v)%Qc)
  end.

Definition sum_min_count (min_count : nat) (col : list cell) : cell :=
  let '(nobs, sumx) := foldl sum_step (O, 0%Qc) col in
  if (nobs <? min_count)%nat then None else Some sumx.

(** Order of the values of a key column, the missing key last. *)
Definition optZ_le (a b : option Z) : Prop :=
  match a, b with
  | Some x, Some y => (x <= y)%Z
  | _, None => True
  | None, Some _ => False
  end.

(** Order of the pairs of key values: first column, then second. *)
Definition optZ2_le (a b : option Z * option Z) : Prop :=
  if decide (a.1 = b.1) then optZ_le a.2 b.2 else optZ_le a.1 b.1.

Global Instance optZ_le_dec : RelDecision optZ_le.
Proof.
  intros [x|] [y|]; simpl; [apply Z_le_dec | left | right | left]; tauto.
Defined.

Global Instance optZ2_le_dec : RelDecision optZ2_le.
Proof.
  intros a b. unfold optZ2_le.
  destruct (decide (a.1 = b.1)); apply optZ_le_dec.
Defined.

End Frame.

(** ** Course flags (lines 93-106) *)

Module CourseFlag.

Record courseflag := mkCourseflag {
  SchoolYear : Z;
  SchoolDBN : string;
  TermCD : Z;
  CourseCD : string;
  GradeAveragedFlag : cell;
  MarkingPeriod : Z
}.

Definition flag_key : Type := Z * string * Z * string * Z.

Definition key_of (r : courseflag) : flag_key :=
  (SchoolYear r, SchoolDBN r, TermCD r, CourseCD r, MarkingPeriod r).

Definition lex (c1 c2 : comparison) : comparison :=
  match c1 with Eq => c2 | _ => c1 end.

(** Column-by-column comparison of two keys, in the order of the [by] list
    of [sort_values]. *)
Definition key_compare (a b : flag_key) : comparison :=
  let '(y1, d1, t1, c1, m1) := a in
  let '(y2, d2, t2, c2, m2) := b in
  lex (y1 ?= y2)%Z
    (lex (String.compare d1 d2)
       (lex (t1 ?= t2)%Z (lex (String.compare c1 c2) (m1 ?= m2)%Z))).

Definition key_leb (a b : flag_key) : bool :=
  match key_compare a b with Gt => false | _ => true end.

(** Lines 102-106. *)
Definition dedupe_courseflag (df : list courseflag) : list courseflag :=
  Frame.drop_duplicates key_of (Frame.sort_values key_of key_leb df).

End CourseFlag.

(** ** Yearly Aggregator (lines 278-305) *)

Module Aggregator.
Import Frame.

(** A row of the frame [d] after lines 291-295, of a yearly aggregate and
    of the concatenation [all_cat]: the key columns and the [tot_*]
    columns. *)
Record totals_row := mkTotals {
  yr_school_year : option Z;
  yr_student_id : option Z;
  tot_cred_att : cell;
  tot_cred_earned : cell;
  tot_gpa_pts : cell
}.

(** Line 283: the mask of the rows that are kept. *)
Definition eligible (r : coursegrade) : bool :=
  negb (cell_eqb (fillna 0%Qc (grade_averaged_flag r)) 0%Qc
        || isna (numeric_equivalent r)).

(** Lines 286-295 on one row. [pd.to_numeric(errors="coerce")] leaves a
    float column as it is; the coercion of a text cell and the [float64]
    product are in [Float64.tot_gpa_pts_row]. *)
Definition tot_cred_earned_row (r : coursegrade) : cell :=
  cell_mul (credits r) (is_passing r).

Definition tot_gpa_pts_row (r : coursegrade) : cell :=
  cell_mul (cell_mul (numeric_equivalent r) (credits r))
    (grade_average_factor r).

Definition row_totals (r : coursegrade) : totals_row :=
  mkTotals (school_year r) (student_id r) (credits r)
    (tot_cred_earned_row r) (tot_gpa_pts_row r).

Definition yr_key (t : totals_row) : option Z * option Z :=
  (yr_school_year t, yr_student_id t).

(** Lines 297-304 on one group. *)
Definition collapse_year (g : (option Z * option Z) * list totals_row)
  : totals_row :=
  mkTotals g.1.1 g.1.2
    (sum_min_count 1 (tot_cred_att <$> g.2))
    (sum_min_count 1 (tot_cred_earned <$> g.2))
    (sum_min_count 1 (tot_gpa_pts <$> g.2)).

(** The frame [d] after line 283. *)
Definition eligible_rows (df : list coursegrade) : list coursegrade :=
  filter (fun r => eligible r = true) df.

Definition compute_yearly_totals (df : list coursegrade) : list totals_row :=
  let d := eligible_rows df in
  let d := row_totals <$> d in
  collapse_year <$> groupby yr_key optZ2_le d.

(** The rows that line 301 puts in the group of key [k]. *)
Definition year_group (df : list coursegrade) (k : option Z * option Z)
  : list totals_row :=
  rows_of yr_key k (row_totals <$> eligible_rows df).

End Aggregator.

(** ** Cumulative Combiner (lines 330-386) *)

Module Combiner.
Import Frame Aggregator.

(** A value that the division of two [float64] cells may produce. *)
Inductive fval :=
| FNaN
| FInf (negative : bool)
| FNum (q : Qc).

Definition fval_isna (v : fval) : bool :=
  match v with FNaN => true | _ => false end.

(** Element-wise [/] of two [float64] columns: a zero divisor gives an
    infinity of the sign of the dividend, and [0 / 0] and a missing
    operand give the missing value.  The quotient is kept exact.  (On
    columns of dtype [object] the same line divides Python objects and
    raises [ZeroDivisionError] on a zero divisor; no property below rests
    on the quotient.) *)
Definition fdiv (a b : cell) : fval :=
  match a, b with
  | Some x, Some y =>
      if Qc_eqb y 0%Qc then
        if Qc_eqb x 0%Qc then FNaN else FInf (Qnum x <? 0)%Z
      else FNum (x / y)%Qc
  | _, _ => FNaN
  end.

(** Nearest integer, ties to the even one. *)
Definition rint (q : Qc) : Z :=
  let n := Qnum q in
  let d := Z.pos (Qden q) in
  let f := (n / d)%Z in
  let r2 := (2 * (n mod d))%Z in
  if (r2 <? d)%Z then f
  else if (d <? r2)%Z then (f + 1)%Z
  else if Z.even f then f else (f + 1)%Z.

(** [Series.round(decimals)] on the exact quotient: scale, round to the
    nearest integer, scale back; the missing value and the infinities are
    left as they are.  No property below rests on the rounded value. *)
Definition fround (decimals : nat) (v : fval) : fval :=
  match v with
  | FNum q =>
      let scale := Q2Qc (inject_Z (10 ^ Z.of_nat decimals)) in
      FNum (Q2Qc (inject_Z (rint (q * scale)%Qc)) / scale)%Qc
  | _ => v
  end.

Record cumulative_row := mkCumulative {
  cum_student_id : option Z;
  cum_tot_cred_att : cell;
  cum_tot_cred_earned : cell;
  cum_tot_gpa_pts : cell;
  tot_gpa : fval
}.

(** Lines 377-386 on one group. *)
Definition collapse_student (g : option Z * list totals_row) : cumulative_row :=
  let att := sum_min_count 1 (tot_cred_att <$> g.2) in
  let earned := sum_min_count 1 (tot_cred_earned <$> g.2) in
  let pts := sum_min_count 1 (tot_gpa_pts <$> g.2) in
  mkCumulative g.1 att earned pts (fround 2 (fdiv pts att)).

(** Lines 373-386: concatenate the yearly aggregates, collapse by student,
    divide and round. *)
Definition combine (all_frames : list (list totals_row)) : list cumulative_row :=
  let all_cat := concat all_frames in
  collapse_student <$> groupby yr_student_id optZ_le all_cat.


(** The biographic roster (lines 341-350). *)
Record biog_row := mkBiog {
  biog_student_id : option Z;
  grade_level : string
}.

Definition filter_biog (biog : list biog_row) : list biog_row :=
  filter (fun b => Deriver.isin (grade_level b) ["09"; "10"; "11"; "12"] = true)
    biog.

(** Lines 352-358: inner join on [student_id], the roster on the left;
    [validate="1:m"] raises when a roster key is repeated ([None]). *)
Definition merge_biog (biog : list biog_row) (coursegrades : list coursegrade)
  : option (list coursegrade) :=
  if decide (NoDup (biog_student_id <$> biog)) then
    Some (b ← biog;
          filter (fun r => student_id r = biog_student_id b) coursegrades)
  else None.

(** Lines 360-362: [is_passing] is set to missing where [mark] is
    missing. *)
Definition force_is_passing_row (r : coursegrade) : coursegrade :=
  if isna (mark r) then
    mkCoursegrade (school_year r) (student_id r) (course_code r)
      (subject r) (course_description r) (credits r) (mark r)
      (grade_average_factor r) (grade_averaged_flag r) None
      (numeric_equivalent r)
  else r.

Definition force_is_passing (merged : list coursegrade) : list coursegrade :=
  force_is_passing_row <$> merged.

(** Lines 338-386, the reads and the write left out: [coursegrades] is the
    current year's assembled frame, [biog] the roster, [prev_courses] the
    prior years' frames. *)
Definition compute_cumulative_gpa (coursegrades : list coursegrade)
    (biog : list biog_row) (prev_courses : list (list coursegrade))
  : option (list cumulative_row) :=
  merged ← merge_biog (filter_biog biog) coursegrades;
  let merged := force_is_passing merged in
  let totals_current := compute_yearly_totals merged in
  let prior_totals := compute_yearly_totals <$> prev_courses in
  let all_frames := totals_current :: prior_totals in
  Some (combine all_frames).

End Combiner.

(** ** The null-preserving sum, as the specification words it *)

Module SpecSum.



End SpecSum.

(** ** The rows that count, as the specification words them *)

Module SpecRows.
Import Combiner.

(** "A row is kept only if flag is a nonzero value AND numeric_equivalent
    is present." *)
Definition included (r : coursegrade) : Prop :=
  (exists f, grade_averaged_flag r = Some f /\ f <> 0%Qc) /\
  (exists n, numeric_equivalent r = Some n).

Global Instance included_dec (r : coursegrade) : Decision (included r).
Proof.
  unfold included.
  destruct (grade_averaged_flag r) as [f|];
    [|right; intros [(f & H & _) _]; discriminate H].
  destruct (numeric_equivalent r) as [n|];
    [|right; intros [_ (n & H)]; discriminate H].
  destruct (Qc_eq_dec f 0%Qc) as [E|E].
  - right. intros [(f' & H & Hnz) _]. apply Hnz. congruence.
  - left. split; eauto.
Defined.

Definition year_student (r : coursegrade) : option Z * option Z :=
  (school_year r, student_id r).

(** The rows of a frame that count for the key [k], in frame order. *)
Definition counted (df : list coursegrade) (k : option Z * option Z)
  : list coursegrade :=
  filter (fun r => included r /\ year_student r = k) df.

(** The student is in the roster with a grade level from 09 to 12. *)
Definition on_roster (biog : list biog_row) (s : option Z) : Prop :=
  Exists (fun b => biog_student_id b = s /\
                   grade_level b ∈ ["09"; "10"; "11"; "12"]) biog.

(** The current-year rows that count for the key [k]: those of the
    students of the roster. *)
Definition counted_current (coursegrades : list coursegrade)
    (biog : list biog_row) (k : option Z * option Z) : list coursegrade :=
  filter (fun r => on_roster biog (student_id r) /\ included r /\
                   year_student r = k) coursegrades.

(** What a row adds to the earned credits and to the grade points:
    [credits * is_passing] and [numeric_equivalent * credits *
    grade_average_factor], null when a factor is null.  Its credits are
    what it adds to the attempted credits. *)
Definition cred_earned (r : coursegrade) : cell :=
  cell_mul (credits r) (is_passing r).

Definition gpa_pts (r : coursegrade) : cell :=
  cell_mul (cell_mul (numeric_equivalent r) (credits r))
    (grade_average_factor r).

(** What a current-year row adds to the earned credits: null when its
    mark is null. *)
Definition earned_contribution (r : coursegrade) : cell :=
  match mark r with
  | None => None
  | Some _ => cred_earned r
  end.

End SpecRows.

(** ** Sample frames *)

Module Samples.
Import CourseFlag Aggregator Combiner.

Definition num (n : Z) : cell := Some (Q2Qc (inject_Z n)).

(** Two flag rows of one key that differ in the flag. *)
Definition flag_on : courseflag :=
  mkCourseflag 2023 "01M292" 2 "EES81" (num 1) 1.

Definition flag_off : courseflag :=
  mkCourseflag 2023 "01M292" 2 "EES81" (num 0) 1.

(** A graded course of student 7 in 2022. *)
Definition graded (credit grade : Z) (m : option string) : coursegrade :=
  mkCoursegrade (Some 2022%Z) (Some 7%Z) "EES81" "English" ""
    (num credit) m (num 1) (num 1) (num 1) (num grade).


(** A course of student 7 whose flag is zero, and one without a numeric
    equivalent. *)
Definition unflagged (credit : Z) : coursegrade :=
  mkCoursegrade (Some 2022%Z) (Some 7%Z) "PPS81" "" ""
    (num credit) (Some "P") (num 1) (num 0) (num 1) (num 100).

Definition ungraded (credit : Z) : coursegrade :=
  mkCoursegrade (Some 2022%Z) (Some 7%Z) "ZLS81" "" ""
    (num credit) (Some "NS") (num 1) (num 1) (num 1) None.

End Samples.

(** ** Command-line values and the header of a prior-year file
       (lines 39-52 and 308-327) *)

Module Cli.

(** The characters that [str.strip()] removes, among the ASCII ones. *)
Definition is_space (c : ascii) : bool :=
  let n := N_of_ascii c in
  ((9 <=? n)%N && (n <=? 13)%N) || ((28 <=? n)%N && (n <=? 32)%N).

Definition lower_ascii (c : ascii) : ascii :=
  let n := N_of_ascii c in
  if ((65 <=? n)%N && (n <=? 90)%N) then ascii_of_N (n + 32) else c.

(** [s.lower()] on an ASCII string. *)
Fixpoint lower (s : string) : string :=
  match s with
  | EmptyString => EmptyString
  | String c s' => String (lower_ascii c) (lower s')
  end.

(** [s.endswith(suffix)]. *)
Fixpoint endswith (suffix s : string) : bool :=
  (s =? suffix) ||
  match s with
  | EmptyString => false
  | String _ s' => endswith suffix s'
  end.

Fixpoint lstrip (s : string) : string :=
  match s with
  | EmptyString => EmptyString
  | String c s' => if is_space c then lstrip s' else s
  end.

Fixpoint rstrip (s : string) : string :=
  match s with
  | EmptyString => EmptyString
  | String c s' =>
      let r := rstrip s' in
      if is_space c && (r =? "") then "" else String c r
  end.

(** [s.strip()]. *)
Definition strip (s : string) : string := rstrip (lstrip s).

(** [sep in s] for a one-character [sep]. *)
Fixpoint contains (sep : ascii) (s : string) : bool :=
  match s with
  | EmptyString => false
  | String c s' => Ascii.eqb c sep || contains sep s'
  end.

(** [s.split(sep, 1)]: the parts before and after the first [sep]; the
    whole string and nothing when [sep] does not occur. *)
Fixpoint split_once (sep : ascii) (s : string) : string * option string :=
  match s with
  | EmptyString => (EmptyString, None)
  | String c s' =>
      if Ascii.eqb c sep then (EmptyString, Some s')
      else let '(a, b) := split_once sep s' in (String c a, b)
  end.

(** The two [ValueError]s of [parse_prev_courses]. *)
Inductive parse_error :=
| InvalidValue (item : string)
| NotCsv (path : string).

(** Lines 46-51 on one item. *)
Definition parse_item (item : string) : parse_error + (string * string) :=
  if negb (contains "=" item) then inl (InvalidValue item)
  else
    match split_once "=" item with
    | (label, Some path) =>
        if negb (endswith ".csv" (lower path)) then inl (NotCsv path)
        else inr (strip label, strip path)
    | (_, None) => inl (InvalidValue item)
    end.

(** The loop of lines 45-51, [results] being the list built so far. *)
Fixpoint parse_items (items : list string) (results : list (string * string))
  : parse_error + list (string * string) :=
  match items with
  | [] => inr results
  | item :: rest =>
      match parse_item item with
      | inl e => inl e
      | inr p => parse_items rest (results ++ [p])%list
      end
  end.

(** Lines 39-52; [pairs or []] reads a missing list as the empty one. *)
Definition parse_prev_courses (pairs : option (list string))
  : parse_error + list (string * string) :=
  parse_items (default [] pairs) [].

(** Lines 313-321. *)
Definition required : list string :=
  ["school_year"; "student_id"; "credits"; "is_passing";
   "numeric_equivalent"; "grade_average_factor"; "grade_averaged_flag"].

(** Lines 311-327 on the header of the file: the lower-cased header, or
    the [ValueError] with the required columns that are missing (in the
    source they are listed in the iteration order of a set). *)
Definition load_prior_courses (columns : list string)
  : list string + list string :=
  let columns := lower <$> columns in
  let missing := filter (fun c => c ∉ columns) required in
  if decide (missing = []) then inr columns else inl missing.

(** What one accepted item looks like, and what is returned for it. *)
Definition well_formed (item : string) (p : string * string) : Prop :=
  exists label path,
    item = label ++ "=" ++ path /\ contains "=" label = false /\
    endswith ".csv" (lower path) = true /\
    p = (strip label, strip path).

End Cli.

(** ** Coursegrade Assembler (lines 70-133 and 183-275) *)

Module Assembler.
Import Frame CourseFlag.

Section Merge.
Context {L R K : Type} `{EqDecision K} (lkey : L -> K) (rkey : R -> K).

(** The right rows that carry the key of a left row. *)
Definition matches (l : L) (right : list R) : list R :=
  filter (fun r => rkey r = lkey l) right.

(** [how="inner"]: each left row, in order, with each of its matches. *)
Definition inner_rows (left : list L) (right : list R) : list (L * R) :=
  l ← left; (fun r => (l, r)) <$> matches l right.

(** [how="left"]: as above, a left row without a match kept with missing
    right columns. *)
Definition left_rows (left : list L) (right : list R) : list (L * option R) :=
  l ← left;
  match matches l right with
  | [] => [(l, None)]
  | rs => (fun r => (l, Some r)) <$> rs
  end.

(** [validate="m:1"]: a [MergeError] ([None]) when a key occurs twice in
    the right frame. *)
Definition validate_m1 {O : Type} (right : list R) (rows : list O)
  : option (list O) :=
  if decide (NoDup (rkey <$> right)) then Some rows else None.
End Merge.

Record studentmark := mkStudentMark {
  sm_SchoolYear : Z;
  sm_StudentID : option Z;
  sm_SchoolDBN : string;
  sm_TermCD : Z;
  sm_CourseCD : string;
  sm_Section : Z;
  sm_Credits : cell;
  sm_Mark : option string;
  sm_MarkingPeriod : Z
}.

Record courseinfo := mkCourseInfo {
  ci_SchoolYear : Z;
  ci_SchoolDBN : string;
  ci_TermCD : Z;
  ci_CourseCD : string;
  ci_CourseTitle : string;
  ci_GradeAverageFactor : cell
}.

Record school := mkSchool {
  sc_SchoolDBN : string;
  sc_NumericSchoolDBN : Z
}.

Record markdefinition := mkMarkDefinition {
  md_SchoolYear : Z;
  md_NumericSchoolDBN : Z;
  md_TermCD : Z;
  md_Mark : option string;
  md_isPassing : cell;
  md_AlphaEquivalent : option string;
  md_NumericEquivalent : cell
}.

(** The five frames of lines 127-133. *)
Record tables := mkTables {
  tbl_StudentMarks : list studentmark;
  tbl_CourseInfo : list courseinfo;
  tbl_CourseFlag : list courseflag;
  tbl_School : list school;
  tbl_MarkDefinition : list markdefinition
}.

(** Lines 70-133 after the five queries: [queried] holds their results,
    and the flags are deduplicated. *)
Definition load_current_year_data (queried : tables) : tables :=
  mkTables (tbl_StudentMarks queried) (tbl_CourseInfo queried)
    (dedupe_courseflag (tbl_CourseFlag queried))
    (tbl_School queried) (tbl_MarkDefinition queried).

(** A row of the assembled frame: the columns that the later stages read
    ([cols]) and the other columns. *)
Record assembled := mkAssembled {
  cols : coursegrade;
  dbn : string;
  term_code : Z;
  section : Z;
  course_title : string;
  alpha_equivalent : option string;
  markingperiod : Z;
  numericschooldbn : Z;
  dataset : string
}.

Definition course_key : Type := Z * string * Z * string.

Definition mark_course_key (sm : studentmark) : course_key :=
  (sm_SchoolYear sm, sm_SchoolDBN sm, sm_TermCD sm, sm_CourseCD sm).

Definition info_key (ci : courseinfo) : course_key :=
  (ci_SchoolYear ci, ci_SchoolDBN ci, ci_TermCD ci, ci_CourseCD ci).

Definition mark_flag_key (m1 : studentmark * courseinfo) : flag_key :=
  (sm_SchoolYear m1.1, sm_SchoolDBN m1.1, sm_TermCD m1.1, sm_CourseCD m1.1,
   sm_MarkingPeriod m1.1).

Definition m1_row : Type := studentmark * courseinfo.
Definition m2_row : Type := m1_row * option courseflag.
Definition m3_row : Type := m2_row * school.
Definition m4_row : Type := m3_row * option markdefinition.

Definition markdef_key : Type := Z * Z * Z * option string.

Definition m3_markdef_key (m3 : m3_row) : markdef_key :=
  (sm_SchoolYear m3.1.1.1, sc_NumericSchoolDBN m3.2, sm_TermCD m3.1.1.1,
   sm_Mark m3.1.1.1).

Definition md_key (md : markdefinition) : markdef_key :=
  (md_SchoolYear md, md_NumericSchoolDBN md, md_TermCD md, md_Mark md).

(** Lines 229-249 on one row of [m4]: the [dataset] tag, the derived
    subject and description, and the renamed columns. *)
Definition finish (m4 : m4_row) : assembled :=
  let sm := m4.1.1.1.1 in
  let ci := m4.1.1.1.2 in
  let fl := m4.1.1.2 in
  let sc := m4.1.2 in
  let md := m4.2 in
  mkAssembled
    (Deriver.derive_row
       (mkCoursegrade (Some (sm_SchoolYear sm)) (sm_StudentID sm)
          (sm_CourseCD sm) "" "" (sm_Credits sm) (sm_Mark sm)
          (ci_GradeAverageFactor ci) (fl ≫= GradeAveragedFlag)
          (md ≫= md_isPassing) (md ≫= md_NumericEquivalent)))
    (sm_SchoolDBN sm) (sm_TermCD sm) (sm_Section sm) (ci_CourseTitle ci)
    (md ≫= md_AlphaEquivalent) (sm_MarkingPeriod sm)
    (sc_NumericSchoolDBN sc) "High School".

(** Lines 183-275. *)
Definition compute_current_year_coursegrades (queried : tables)
  : option (list assembled) :=
  let t := load_current_year_data queried in
  m1 ← validate_m1 info_key (tbl_CourseInfo t)
         (inner_rows mark_course_key info_key
            (tbl_StudentMarks t) (tbl_CourseInfo t));
  m2 ← validate_m1 key_of (tbl_CourseFlag t)
         (left_rows mark_flag_key key_of m1 (tbl_CourseFlag t));
  m3 ← validate_m1 sc_SchoolDBN (tbl_School t)
         (inner_rows (fun m2 : m2_row => sm_SchoolDBN m2.1.1) sc_SchoolDBN
            m2 (tbl_School t));
  m4 ← validate_m1 md_key (tbl_MarkDefinition t)
         (left_rows m3_markdef_key md_key m3 (tbl_MarkDefinition t));
  Some (finish <$> (m4 : list m4_row)).

(** The mark record that an assembled row stems from, read back from its
    columns. *)
Definition mark_of (a : assembled) : studentmark :=
  mkStudentMark (default 0%Z (school_year (cols a))) (student_id (cols a))
    (dbn a) (term_code a) (course_code (cols a)) (section a)
    (credits (cols a)) (mark (cols a)) (markingperiod a).

(** The mark records that the two inner joins keep. *)
Definition has_info (t : tables) (sm : studentmark) : Prop :=
  mark_course_key sm ∈ info_key <$> tbl_CourseInfo t.

Definition has_school (t : tables) (sm : studentmark) : Prop :=
  sm_SchoolDBN sm ∈ sc_SchoolDBN <$> tbl_School t.

Global Instance has_info_dec (t : tables) (sm : studentmark) :
  Decision (has_info t sm).
Proof. unfold has_info, course_key. apply _. Defined.

Global Instance has_school_dec (t : tables) (sm : studentmark) :
  Decision (has_school t sm).
Proof. unfold has_school. apply _. Defined.

(** The keys under which the flag and the mark definition of an assembled
    row were looked up. *)
Definition flag_key_of (a : assembled) : flag_key :=
  (sm_SchoolYear (mark_of a), dbn a, term_code a, course_code (cols a),
   markingperiod a).

Definition markdef_key_of (a : assembled) : markdef_key :=
  (sm_SchoolYear (mark_of a), numericschooldbn a, term_code a, mark (cols a)).

(** The assembled row of one mark record, by look-ups: its course
    information and its school, without which there is no row, and its
    flag and its mark definition, which may be missing. *)
Definition assemble_mark (t : tables) (sm : studentmark) : option assembled :=
  ci ← head (matches mark_course_key info_key sm (tbl_CourseInfo t));
  sc ← head (matches sm_SchoolDBN sc_SchoolDBN sm (tbl_School t));
  let fl := head (matches mark_flag_key key_of (sm, ci) (tbl_CourseFlag t)) in
  let md := head (matches m3_markdef_key md_key (sm, ci, fl, sc)
                    (tbl_MarkDefinition t)) in
  Some (finish (sm, ci, fl, sc, md)).

(** Lines 338-386 from the query results on. *)
Definition run (queried : tables) (biog : list Combiner.biog_row)
    (prev_courses : list (list coursegrade))
  : option (list Combiner.cumulative_row) :=
  coursegrades ← compute_current_year_coursegrades queried;
  Combiner.compute_cumulative_gpa (cols <$> coursegrades) biog prev_courses.

(** Sample query results: three marks of one course, the third in a
    school that is not in the school table; two flag records of one key. *)
Definition sample_tables : tables :=
  mkTables
    [mkStudentMark 2023 (Some 7%Z) "01M292" 2 "EES81" 1
       (Samples.num 1) (Some "90") 1;
     mkStudentMark 2023 (Some 8%Z) "01M292" 2 "EES81" 1
       (Samples.num 1) (Some "90") 2;
     mkStudentMark 2023 (Some 9%Z) "02M000" 2 "EES81" 1
       (Samples.num 1) (Some "90") 1]
    [mkCourseInfo 2023 "01M292" 2 "EES81" "English 9" (Samples.num 1);
     mkCourseInfo 2023 "02M000" 2 "EES81" "English 9" (Samples.num 1)]
    [Samples.flag_on; Samples.flag_off]
    [mkSchool "01M292" 1292]
    [mkMarkDefinition 2023 1292 2 (Some "90") (Samples.num 1) (Some "A")
       (Samples.num 90)].

End Assembler.

(** ** The tables of the Deriver as look-ups *)

Module DeriverTable.
Import Deriver.



End DeriverTable.

(** ** Comparisons that are total orders *)

Module Order.

(** What [sort_values] needs of the comparison of one key column. *)
Record good_compare {A : Type} (cmp : A -> A -> comparison) : Prop := {
  cmp_eq : forall a b, cmp a b = Eq -> a = b;
  cmp_refl : forall a, cmp a a = Eq;
  cmp_antisym : forall a b, cmp b a = CompOpp (cmp a b);
  cmp_lt_trans : forall a b c, cmp a b = Lt -> cmp b c = Lt -> cmp a c = Lt
}.

(** First column, then second. *)
Definition lex_pair {A B : Type} (cmpA : A -> A -> comparison)
    (cmpB : B -> B -> comparison) (p q : A * B) : comparison :=
  CourseFlag.lex (cmpA p.1 q.1) (cmpB p.2 q.2).

Definition leb_of {A : Type} (cmp : A -> A -> comparison) (a b : A) : bool :=
  match cmp a b with Gt => false | _ => true end.

(** The key of a flag record as nested pairs, and its comparison column
    by column. *)
Definition nest (k : CourseFlag.flag_key) : Z * (string * (Z * (string * Z))) :=
  let '(y, d, t, c, m) := k in (y, (d, (t, (c, m)))).

Definition nested_compare : Z * (string * (Z * (string * Z))) ->
    Z * (string * (Z * (string * Z))) -> comparison :=
  lex_pair Z.compare
    (lex_pair String.compare
       (lex_pair Z.compare (lex_pair String.compare Z.compare))).

End Order.

(** ** IEEE 754 binary64 cells (lines 283-292 and 373-382 on [float64]) *)

Module Float64.

(** A [float64] is a binary64 value: precision 53, largest exponent
    1024; the operations round to nearest, ties to even. *)
Definition float64 : Type := spec_float.

Definition prec : Z := 53.
Definition emax : Z := 1024.

Definition nan : float64 := S754_nan.
Definition zero : float64 := S754_zero false.

Definition add : float64 -> float64 -> float64 := SFadd prec emax.
Definition sub : float64 -> float64 -> float64 := SFsub prec emax.
Definition mul : float64 -> float64 -> float64 := SFmul prec emax.
Definition div : float64 -> float64 -> float64 := SFdiv prec emax.

Definition is_nan (x : float64) : bool :=
  match x with S754_nan => true | _ => false end.

Definition is_inf (x : float64) : bool :=
  match x with S754_infinity _ => true | _ => false end.

Definition is_zero (x : float64) : bool :=
  match x with S754_zero _ => true | _ => false end.

(** The [float64] of an integer and of a decimal numeral [n / 10 ^ d],
    as the reader of a CSV file produces them. *)
Definition of_Z (n : Z) : float64 := binary_normalize prec emax n 0 false.

Definition of_decimal (n : Z) (d : positive) : float64 :=
  div (of_Z n) (of_Z (10 ^ Z.pos d)).

(** *** The cells of one row (lines 283-292) *)

(** A cell of a column that is numeric or of dtype [object]: missing, a
    number, or text. *)
Inductive value :=
| Null
| Num (x : float64)
| Text (s : string).

Definition isna (v : value) : bool :=
  match v with
  | Null => true
  | Num x => is_nan x
  | Text _ => false
  end.

Definition fillna (d : float64) (v : value) : value :=
  if isna v then Num d else v.

(** [== x] on a cell: text is never equal to a number. *)
Definition eq_num (v : value) (x : float64) : bool :=
  match v with
  | Num y => SFeqb y x
  | _ => false
  end.

Record graded_row := mkGradedRow {
  grade_averaged_flag : value;
  numeric_equivalent : value;
  credits : value;
  grade_average_factor : value
}.

(** Line 283: the mask of the rows that are kept. *)
Definition eligible (r : graded_row) : bool :=
  negb (eq_num (fillna zero (grade_averaged_flag r)) zero
        || isna (numeric_equivalent r)).

Section Coerce.
(** The number that [pd.to_numeric] reads in a text cell, [nan] when the
    text is not a numeral ([errors="coerce"]). *)
Variable parse : string -> float64.

(** Lines 286-289. *)
Definition to_numeric (v : value) : float64 :=
  match v with
  | Null => nan
  | Num x => x
  | Text s => parse s
  end.

(** Line 292. *)
Definition tot_gpa_pts_row (r : graded_row) : float64 :=
  mul (mul (to_numeric (numeric_equivalent r)) (to_numeric (credits r)))
    (to_numeric (grade_average_factor r)).
End Coerce.

(** An infinity meets a zero in a product. *)
Definition inf_times_zero (x y : float64) : bool :=
  (is_inf x && is_zero y) || (is_zero x && is_inf y).

(** *** The collapse by student (lines 373-382) *)

Record yearly := mkYearly {
  school_year : option Z;
  student_id : option Z;
  tot_cred_att : float64;
  tot_cred_earned : float64;
  tot_gpa_pts : float64
}.

Record cumulative := mkCumulative {
  cum_student_id : option Z;
  cum_tot_cred_att : float64;
  cum_tot_cred_earned : float64;
  cum_tot_gpa_pts : float64
}.

Section Sum.
(** The total of the observed values of a group, which pandas adds in
    row order. *)
Variable total : list float64 -> float64.

(** [.sum(min_count)] on one column of one group. *)
Definition sum_min_count (min_count : nat) (col : list float64) : float64 :=
  let observed := filter (fun x => is_nan x = false) col in
  if (length observed <? min_count)%nat then nan else total observed.

(** Lines 377-382 on one group. *)
Definition collapse_student (g : option Z * list yearly) : cumulative :=
  mkCumulative g.1
    (sum_min_count 1 (tot_cred_att <$> g.2))
    (sum_min_count 1 (tot_cred_earned <$> g.2))
    (sum_min_count 1 (tot_gpa_pts <$> g.2)).

(** Lines 373-382. *)
Definition combine (all_frames : list (list yearly)) : list cumulative :=
  let all_cat := concat all_frames in
  collapse_student <$> Frame.groupby student_id Frame.optZ_le all_cat.
End Sum.

(** The running sum, from zero. *)
Definition running_total (l : list float64) : float64 := foldl add zero l.

(** The running sum with a compensation term (Kahan), which recent
    versions of pandas use in the group sum. *)
Definition kahan_step (acc : float64 * float64) (v : float64)
  : float64 * float64 :=
  let y := sub v acc.2 in
  let t := add acc.1 y in
  let c := sub (sub t acc.1) y in
  (t, if is_nan c then zero else c).

Definition compensated_total (l : list float64) : float64 :=
  (foldl kahan_step (zero, zero) l).1.

(** The yearly rows of a student, in the order of the concatenation. *)
Definition student_rows (all_frames : list (list yearly)) (s : option Z)
  : list yearly :=
  filter (fun y => student_id y = s) (concat all_frames).

(** Three yearly aggregates of student 7, of one credit each, with 62.6,
    98.1 and 96.1 grade points. *)
Definition year_2021 : yearly :=
  mkYearly (Some 2021%Z) (Some 7%Z) (of_Z 1) (of_Z 1) (of_decimal 626 1).

Definition year_2022 : yearly :=
  mkYearly (Some 2022%Z) (Some 7%Z) (of_Z 1) (of_Z 1) (of_decimal 981 1).

Definition year_2023 : yearly :=
  mkYearly (Some 2023%Z) (Some 7%Z) (of_Z 1) (of_Z 1) (of_decimal 961 1).

(** A row whose product of grade and credits overflows. *)
Definition overflow_row : graded_row :=
  mkGradedRow (Num (of_Z 1)) (Num (of_Z (10 ^ 200))) (Num (of_Z (10 ^ 200)))
    (Num zero).

End Float64.

(** * Properties of the Deriver *)

Module DeriverFacts.
Import Deriver.








End DeriverFacts.

(** * Properties of the course-flag deduplication *)

Module FrameFacts.
Import Frame.

Section Sorting.
Context {R K : Type} (key : R -> K) (leb : K -> K -> bool).
Context `{EqDecision K}.
Hypothesis leb_refl : forall k, leb k k = true.

Lemma rows_of_insert_sorted k x l :
  rows_of key k (insert_sorted key leb x l) = rows_of key k (x :: l).
Proof.
  unfold rows_of. induction l as [|y l IH]; simpl; [reflexivity|].
  destruct (leb (key x) (key y)) eqn:E; [reflexivity|].
  rewrite filter_cons, IH, !filter_cons.
  destruct (decide (key y = k)) as [Hy|Hy]; [|reflexivity].
  destruct (decide (key x = k)) as [Hx|Hx]; [|reflexivity].
  rewrite Hx, Hy, leb_refl in E. discriminate E.
Qed.

(** Stability: sorting does not reorder the rows of one key. *)
Lemma rows_of_sort_values k l :
  rows_of key k (sort_values key leb l) = rows_of key k l.
Proof.
  induction l as [|x l IH]; simpl; [reflexivity|].
  rewrite rows_of_insert_sorted. unfold rows_of in *.
  rewrite !filter_cons, IH. reflexivity.
Qed.

Lemma rows_of_drop_duplicates_seen k seen l :
  rows_of key k (drop_duplicates_seen key seen l) =
  if decide (k ∈ seen) then [] else option_list (head (rows_of key k l)).
Proof.
  unfold rows_of. revert seen.
  induction l as [|x l IH]; intros seen; simpl.
  - destruct (decide (k ∈ seen)); reflexivity.
  - destruct (decide (key x ∈ seen)) as [Hin|Hin].
    + rewrite IH, (filter_cons _ x l).
      destruct (decide (k ∈ seen)) as [Hk|Hk]; [reflexivity|].
      destruct (decide (key x = k)) as [Hx|Hx]; [|reflexivity].
      subst k. contradiction.
    + rewrite !(filter_cons _ x), IH.
      destruct (decide (key x = k)) as [Hx|Hx].
      * subst k. rewrite decide_True by left.
        rewrite decide_False by exact Hin. reflexivity.
      * destruct (decide (k ∈ seen)) as [Hk|Hk].
        -- rewrite decide_True by (right; exact Hk). reflexivity.
        -- rewrite decide_False; [reflexivity|].
           intros Hc. apply elem_of_cons in Hc as [Hc|Hc]; congruence.
Qed.

Lemma rows_of_drop_duplicates k l :
  rows_of key k (drop_duplicates key l) = option_list (head (rows_of key k l)).
Proof.
  unfold drop_duplicates. rewrite rows_of_drop_duplicates_seen.
  rewrite decide_False; [reflexivity|]. apply not_elem_of_nil.
Qed.
End Sorting.

End FrameFacts.

Module CourseFlagFacts.
Import Frame CourseFlag Samples.

Lemma lex_refl c1 c2 : c1 = Eq -> c2 = Eq -> lex c1 c2 = Eq.
Proof. intros -> ->. reflexivity. Qed.

Lemma string_compare_refl s : String.compare s s = Eq.
Proof.
  induction s as [|c s IH]; simpl; [reflexivity|].
  rewrite IH. unfold Ascii.compare. rewrite N.compare_refl. reflexivity.
Qed.

Lemma key_leb_refl k : key_leb k k = true.
Proof.
  destruct k as [[[[y d] t] c] m]. unfold key_leb, key_compare.
  rewrite !Z.compare_refl, !string_compare_refl. reflexivity.
Qed.

(** C3 (as the code computes it): for every key, the deduplicated table
    holds exactly one row of that key when the key occurs in the input,
    namely the first row of that key in the order of the input, and no row
    of that key otherwise. *)
Theorem dedupe_keeps_first_in_input_order (df : list courseflag) (k : flag_key) :
  rows_of key_of k (dedupe_courseflag df) =
  option_list (head (rows_of key_of k df)).
Proof.
  unfold dedupe_courseflag.
  rewrite FrameFacts.rows_of_drop_duplicates.
  rewrite (FrameFacts.rows_of_sort_values key_of key_leb key_leb_refl).
  reflexivity.
Qed.

(** C3, refuted as stated: two rows with the same key and different flags
    are retained differently under the two orders of the input, so the
    retained row is not a function of the key tuples alone. *)
Lemma dedupe_depends_on_input_order :
  key_of flag_on = key_of flag_off /\
  dedupe_courseflag [flag_on; flag_off] = [flag_on] /\
  dedupe_courseflag [flag_off; flag_on] = [flag_off] /\
  ~ (forall df df' : list courseflag,
       df ≡ₚ df' -> dedupe_courseflag df = dedupe_courseflag df').
Proof.
  split; [reflexivity|]. split; [vm_compute; reflexivity|].
  split; [vm_compute; reflexivity|].
  intros Hall.
  specialize (Hall [flag_on; flag_off] [flag_off; flag_on] (Permutation_swap _ _ _)).
  vm_compute in Hall. discriminate Hall.
Qed.

End CourseFlagFacts.

(** * Properties of grouping and of the null-preserving sum *)

Module GroupFacts.
Import Frame SpecSum.

Lemma Qc_eqb_eq (x y : Qc) : Qc_eqb x y = true <-> x = y.
Proof.
  unfold Qc_eqb. rewrite Qeq_bool_iff. split.
  - apply Qc_is_canon.
  - intros ->. reflexivity.
Qed.

Lemma Qc_eqb_neq (x y : Qc) : Qc_eqb x y = false <-> x <> y.
Proof.
  rewrite <- Qc_eqb_eq. destruct (Qc_eqb x y); split; congruence.
Qed.

Global Instance optZ_le_total : Total optZ_le.
Proof. intros [x|] [y|]; simpl; try tauto. lia. Qed.

Global Instance optZ_le_trans : Transitive optZ_le.
Proof. intros [x|] [y|] [z|]; simpl; try tauto. lia. Qed.

Global Instance optZ_le_antisym : AntiSymm (=) optZ_le.
Proof.
  intros [x|] [y|]; simpl; try tauto. intros. f_equal. lia.
Qed.

Global Instance optZ2_le_total : Total optZ2_le.
Proof.
  intros a b. unfold optZ2_le.
  destruct (decide (a.1 = b.1)) as [E|E].
  - rewrite decide_True by congruence. apply (total optZ_le).
  - rewrite decide_False by congruence. apply (total optZ_le).
Qed.

Global Instance optZ2_le_trans : Transitive optZ2_le.
Proof.
  intros [a1 a2] [b1 b2] [c1 c2]. unfold optZ2_le. simpl.
  destruct (decide (a1 = b1)) as [E1|E1],
    (decide (b1 = c1)) as [E2|E2], (decide (a1 = c1)) as [E3|E3];
    try congruence; intros H1 H2; subst;
    try (exact (transitivity H1 H2)); try assumption.
  exfalso. apply E1. apply (anti_symm optZ_le); assumption.
Qed.

Global Instance optZ2_le_antisym : AntiSymm (=) optZ2_le.
Proof.
  intros [a1 a2] [b1 b2]. unfold optZ2_le. simpl.
  destruct (decide (a1 = b1)) as [E|E].
  - rewrite decide_True by congruence. intros H1 H2. subst.
    f_equal. apply (anti_symm optZ_le); assumption.
  - rewrite decide_False by congruence. intros H1 H2.
    exfalso. apply E. apply (anti_symm optZ_le); assumption.
Qed.

Section GroupBy.
Context {R K : Type} (key : R -> K) (le : relation K).
Context `{!RelDecision le} `{EqDecision K}.
Context `{!Total le} `{!Transitive le} `{!AntiSymm (=) le}.

Lemma elem_of_group_keys (l : list R) (k : K) :
  k ∈ group_keys key le l <-> exists r, r ∈ l /\ key r = k.
Proof.
  unfold group_keys. rewrite merge_sort_Permutation, elem_of_remove_dups.
  rewrite list_elem_of_fmap. split; intros (r & H1 & H2); eauto.
Qed.

Lemma NoDup_group_keys (l : list R) : NoDup (group_keys key le l).
Proof.
  unfold group_keys. rewrite merge_sort_Permutation.
  apply NoDup_remove_dups.
Qed.

(** The list of groups is the same for every order of the rows. *)
Lemma group_keys_Permutation (l l' : list R) :
  l ≡ₚ l' -> group_keys key le l = group_keys key le l'.
Proof.
  intros Hp. unfold group_keys.
  apply (StronglySorted_unique le);
    [apply StronglySorted_merge_sort; apply _ ..|].
  rewrite !merge_sort_Permutation.
  apply NoDup_Permutation; [apply NoDup_remove_dups ..|].
  intros k. rewrite !elem_of_remove_dups, Hp. reflexivity.
Qed.

Lemma rows_of_Permutation (k : K) (l l' : list R) :
  l ≡ₚ l' -> rows_of key k l ≡ₚ rows_of key k l'.
Proof. intros Hp. unfold rows_of. rewrite Hp. reflexivity. Qed.
End GroupBy.




Lemma concat_Permutation {A} (ls ls' : list (list A)) :
  ls ≡ₚ ls' -> concat ls ≡ₚ concat ls'.
Proof.
  induction 1 as [|x l l' _ IH|x y l|l1 l2 l3 _ IH1 _ IH2]; simpl.
  - reflexivity.
  - rewrite IH. reflexivity.
  - rewrite !(assoc app). rewrite (comm app y x). reflexivity.
  - etransitivity; eassumption.
Qed.

Lemma filter_fmap {A B : Type} (g : A -> B) (P : B -> Prop)
    `{forall y, Decision (P y)} (l : list A) :
  filter P (g <$> l) = g <$> filter (fun x => P (g x)) l.
Proof.
  induction l as [|x l IH]; [reflexivity|].
  rewrite fmap_cons, !filter_cons, IH.
  destruct (decide (P (g x))); reflexivity.
Qed.

End GroupFacts.

(** * Properties of the Yearly Aggregator *)

Module AggregatorFacts.
Import Frame SpecSum SpecRows Aggregator GroupFacts.

Lemma eligible_true (r : coursegrade) :
  eligible r = true <->
  (exists f, grade_averaged_flag r = Some f /\ f <> 0%Qc) /\
  (exists n, numeric_equivalent r = Some n).
Proof.
  unfold eligible. rewrite negb_true_iff, orb_false_iff.
  destruct (grade_averaged_flag r) as [f|], (numeric_equivalent r) as [n|];
    simpl; rewrite ?Qc_eqb_neq.
  - split; [intros [Hf _]; eauto|].
    intros [(f' & Hf' & Hf) _]. injection Hf' as <-. auto.
  - split; [intros [_ H]; discriminate H|].
    intros [_ (n & Hn)]. discriminate Hn.
  - split; [intros [H _]; exfalso; apply H; reflexivity|].
    intros [(f & Hf & _) _]. discriminate Hf.
  - split; [intros [_ H]; discriminate H|].
    intros [_ (n & Hn)]. discriminate Hn.
Qed.

Lemma elem_of_compute_yearly_totals (df : list coursegrade) (y : totals_row) :
  y ∈ compute_yearly_totals df <->
  exists k, k ∈ group_keys yr_key optZ2_le (row_totals <$> eligible_rows df) /\
            y = collapse_year (k, year_group df k).
Proof.
  unfold compute_yearly_totals, groupby, year_group.
  rewrite list_elem_of_fmap. split.
  - intros (g & -> & Hg). apply list_elem_of_fmap in Hg as (k & -> & Hk).
    exists k. split; [exact Hk | reflexivity].
  - intros (k & Hk & ->). eexists. split; [reflexivity|].
    apply list_elem_of_fmap. exists k. split; [reflexivity | exact Hk].
Qed.

Lemma keys_compute_yearly_totals (df : list coursegrade) :
  yr_key <$> compute_yearly_totals df =
  group_keys yr_key optZ2_le (row_totals <$> eligible_rows df).
Proof.
  unfold compute_yearly_totals, groupby.
  rewrite <- !list_fmap_compose.
  rewrite <- (list_fmap_id (group_keys _ _ _)) at 2.
  apply list_fmap_ext. intros i k _. simpl. destruct k; reflexivity.
Qed.

Lemma yr_key_collapse_year (g : (option Z * option Z) * list totals_row) :
  yr_key (collapse_year g) = g.1.
Proof. destruct g as [[k1 k2] g]. reflexivity. Qed.

Lemma NoDup_keys_yearly (df : list coursegrade) :
  NoDup (yr_key <$> compute_yearly_totals df).
Proof.
  rewrite keys_compute_yearly_totals.
  apply NoDup_group_keys.
Qed.

Lemma eligible_included (r : coursegrade) : eligible r = true <-> included r.
Proof. apply eligible_true. Qed.

(** The group of a key is made of the rows that count for it, in frame
    order. *)
Lemma year_group_counted (df : list coursegrade) (k : option Z * option Z) :
  year_group df k = row_totals <$> counted df k.
Proof.
  unfold year_group, rows_of, eligible_rows, counted.
  rewrite filter_fmap, list_filter_filter. f_equal.
  apply list_filter_iff. intros r. rewrite eligible_included.
  unfold yr_key, year_student. simpl. tauto.
Qed.

Lemma eligible_rows_excluded (l1 l2 : list coursegrade) (r : coursegrade) :
  ~ included r -> eligible_rows (l1 ++ r :: l2) = eligible_rows (l1 ++ l2).
Proof.
  intros Hr. unfold eligible_rows.
  rewrite !filter_app, filter_cons_False; [reflexivity|].
  rewrite eligible_included. exact Hr.
Qed.

Lemma excluded_not_included (r : coursegrade) :
  grade_averaged_flag r = None \/ grade_averaged_flag r = Some 0%Qc \/
  numeric_equivalent r = None -> ~ included r.
Proof.
  intros H [(f & Hf & Hnz) (n & Hn)].
  destruct H as [H|[H|H]]; rewrite H in *; try discriminate.
  injection Hf as <-. apply Hnz. reflexivity.
Qed.

Lemma keys_yearly (df : list coursegrade) (k : option Z * option Z) :
  k ∈ yr_key <$> compute_yearly_totals df <->
  exists r, r ∈ df /\ included r /\ year_student r = k.
Proof.
  rewrite keys_compute_yearly_totals.
  rewrite elem_of_group_keys. split.
  - intros (t & Ht & Hk). apply list_elem_of_fmap in Ht as (r & -> & Hr).
    apply list_elem_of_filter in Hr as [He Hr].
    apply eligible_included in He. eauto.
  - intros (r & Hr & He & Hk). exists (row_totals r). split; [|exact Hk].
    apply list_elem_of_fmap_2, list_elem_of_filter.
    split; [apply eligible_included, He | exact Hr].
Qed.

Lemma fields_yearly (df : list coursegrade) (y : totals_row) :
  y ∈ compute_yearly_totals df ->
  tot_cred_att y = sum_min_count 1 (credits <$> counted df (yr_key y)) /\
  tot_cred_earned y =
    sum_min_count 1 (cred_earned <$> counted df (yr_key y)) /\
  tot_gpa_pts y =
    sum_min_count 1 (gpa_pts <$> counted df (yr_key y)).
Proof.
  intros Hy. apply elem_of_compute_yearly_totals in Hy as (k & _ & ->).
  destruct k as [k1 k2]. unfold collapse_year, yr_key. simpl.
  rewrite year_group_counted, <- !list_fmap_compose. auto.
Qed.

(** C4: a row is included in the aggregation exactly when its flag is
    present and nonzero and its numeric equivalent is present.  The
    aggregate has a row for a (school_year, student_id) exactly when an
    included row has that key; each of its totals sums the contributions
    of the included rows of the key, in frame order, and of no other row;
    and a row whose flag is null or zero, or whose numeric equivalent is
    null, each on its own, can be taken out of the frame without changing
    the aggregate. *)
Theorem eligibility_filter (df : list coursegrade) :
  (forall k, k ∈ yr_key <$> compute_yearly_totals df <->
     exists r, r ∈ df /\ included r /\ year_student r = k) /\
  (forall y, y ∈ compute_yearly_totals df ->
     tot_cred_att y = sum_min_count 1 (credits <$> counted df (yr_key y)) /\
     tot_cred_earned y =
       sum_min_count 1 (cred_earned <$> counted df (yr_key y)) /\
     tot_gpa_pts y =
       sum_min_count 1 (gpa_pts <$> counted df (yr_key y))) /\
  (forall l1 r l2, df = (l1 ++ r :: l2)%list ->
     grade_averaged_flag r = None \/ grade_averaged_flag r = Some 0%Qc \/
     numeric_equivalent r = None ->
     compute_yearly_totals df = compute_yearly_totals (l1 ++ l2)).
Proof.
  split; [apply keys_yearly|]. split; [apply fields_yearly|].
  intros l1 r l2 -> Hr. unfold compute_yearly_totals.
  rewrite (eligible_rows_excluded l1 l2 r (excluded_not_included r Hr)).
  reflexivity.
Qed.

Lemma eligibility_filter_witness :
  compute_yearly_totals
    [Samples.graded 1 90 None; Samples.unflagged 5; Samples.ungraded 7] =
  compute_yearly_totals [Samples.graded 1 90 None] /\
  exists y,
    y ∈ compute_yearly_totals
          [Samples.graded 1 90 None; Samples.unflagged 5; Samples.ungraded 7] /\
    tot_cred_att y = Samples.num 1.
Proof.
  split.
  - transitivity
      (compute_yearly_totals [Samples.graded 1 90 None; Samples.ungraded 7]).
    + apply (proj2 (proj2 (eligibility_filter
                [Samples.graded 1 90 None; Samples.unflagged 5;
                 Samples.ungraded 7]))
               [Samples.graded 1 90 None] (Samples.unflagged 5)
               [Samples.ungraded 7] eq_refl).
      right. left. reflexivity.
    + apply (proj2 (proj2 (eligibility_filter
                [Samples.graded 1 90 None; Samples.ungraded 7]))
               [Samples.graded 1 90 None] (Samples.ungraded 7) [] eq_refl).
      right. right. reflexivity.
  - destruct (eligibility_filter
                [Samples.graded 1 90 None; Samples.unflagged 5; Samples.ungraded 7])
      as (Hkeys & Hfields & _).
    assert ((Some 2022%Z, Some 7%Z) ∈ yr_key <$> compute_yearly_totals
              [Samples.graded 1 90 None; Samples.unflagged 5; Samples.ungraded 7]) as Hk.
    { apply Hkeys. exists (Samples.graded 1 90 None).
      split; [left|]. split; [|reflexivity].
      split; eexists; [split; [reflexivity | discriminate] | reflexivity]. }
    apply list_elem_of_fmap in Hk as (y & Hkey & Hy).
    exists y. split; [exact Hy|].
    rewrite (proj1 (Hfields y Hy)), <- Hkey.
    vm_compute. reflexivity.
Defined.

End AggregatorFacts.

(** * Properties of the Cumulative Combiner *)

Module CombinerFacts.
Import Frame SpecSum SpecRows Aggregator Combiner GroupFacts AggregatorFacts.


Lemma force_is_passing_row_fields (r : coursegrade) :
  school_year (force_is_passing_row r) = school_year r /\
  student_id (force_is_passing_row r) = student_id r /\
  credits (force_is_passing_row r) = credits r /\
  eligible (force_is_passing_row r) = eligible r.
Proof.
  unfold force_is_passing_row. destruct (isna (mark r)); repeat split.
Qed.

Lemma keys_combine (all_frames : list (list totals_row)) :
  cum_student_id <$> combine all_frames =
  group_keys yr_student_id optZ_le (concat all_frames).
Proof.
  unfold combine, groupby.
  rewrite <- !list_fmap_compose.
  rewrite <- (list_fmap_id (group_keys _ _ _)) at 2.
  apply list_fmap_ext. intros i k _. reflexivity.
Qed.





End CombinerFacts.

(** * Properties of the command-line values and of the header check *)

Module CliFacts.
Import Cli.

Lemma is_space_lower (c : ascii) : is_space c = true -> lower_ascii c = c.
Proof.
  destruct c as [[] [] [] [] [] [] [] []]; intros H;
    try reflexivity; vm_compute in H; discriminate H.
Qed.

Lemma not_space_of_lower (c d : ascii) :
  lower_ascii c = d -> is_space d = false -> is_space c = false.
Proof.
  intros Hl Hd. destruct (is_space c) eqn:E; [|reflexivity].
  rewrite (is_space_lower c E) in Hl. congruence.
Qed.

Lemma contains_split_once (sep : ascii) (s : string) :
  contains sep s = true <-> exists a b, split_once sep s = (a, Some b).
Proof.
  induction s as [|c s IH]; simpl.
  - split; [discriminate | intros (a & b & [=])].
  - destruct (Ascii.eqb c sep); simpl; [split; eauto|].
    rewrite IH. destruct (split_once sep s) as [a b].
    split; intros (a' & b' & H); simplify_eq/=; eauto.
Qed.

(** [split_once] cuts at the first separator. *)
Lemma split_once_spec (sep : ascii) (s a b : string) :
  split_once sep s = (a, Some b) <->
  s = a ++ String sep b /\ contains sep a = false.
Proof.
  revert a. induction s as [|c s IH]; intros a; simpl.
  - split; [intros [=]|]. intros [H _]. destruct a; discriminate H.
  - destruct (Ascii.eqb_spec c sep) as [->|Hne].
    + split.
      * intros [= <- <-]. split; reflexivity.
      * intros [H Hc]. destruct a as [|c' a]; simpl in *.
        -- injection H as ->. reflexivity.
        -- injection H as <- _. rewrite Ascii.eqb_refl in Hc. discriminate Hc.
    + apply Ascii.eqb_neq in Hne. split.
      * destruct (split_once sep s) as [a' b'] eqn:E.
        intros [= <- ->]. destruct (proj1 (IH a') eq_refl) as [-> Hc].
        simpl. rewrite Hne. auto.
      * intros [H Hc]. destruct a as [|c' a]; simpl in *.
        -- injection H as -> _. rewrite Ascii.eqb_refl in Hne. discriminate Hne.
        -- injection H as <- ->. apply orb_false_iff in Hc as [_ Hc].
           rewrite (proj2 (IH a) (conj eq_refl Hc)). reflexivity.
Qed.

Lemma endswith_csv_lstrip (s : string) :
  endswith ".csv" (lower s) = true -> endswith ".csv" (lower (lstrip s)) = true.
Proof.
  induction s as [|c s IH]; simpl; [auto|].
  destruct (is_space c) eqn:E; [|auto].
  rewrite (is_space_lower c E). intros H.
  apply orb_true_iff in H as [H|H]; [|auto].
  destruct (Ascii.eqb_spec c ".") as [->|_]; [discriminate E | discriminate H].
Qed.

Lemma rstrip_csv (s : string) : lower s = ".csv" -> rstrip s = s.
Proof.
  destruct s as [|c1 [|c2 [|c3 [|c4 [|c5 s]]]]]; try discriminate.
  simpl. intros [= H1 H2 H3 H4].
  rewrite (not_space_of_lower _ _ H4 eq_refl). simpl.
  repeat (rewrite andb_false_r; simpl). reflexivity.
Qed.

Lemma endswith_cons (suffix : string) (c : ascii) (s : string) :
  endswith suffix (String c s) = (String c s =? suffix) || endswith suffix s.
Proof. reflexivity. Qed.

Lemma endswith_csv_rstrip (s : string) :
  endswith ".csv" (lower s) = true -> endswith ".csv" (lower (rstrip s)) = true.
Proof.
  induction s as [|c s IH]; [auto|].
  change (lower (String c s)) with (String (lower_ascii c) (lower s)).
  rewrite endswith_cons. intros H. apply orb_true_iff in H as [H|H].
  - apply String.eqb_eq in H.
    rewrite (rstrip_csv (String c s)) by exact H.
    change (lower (String c s)) with (String (lower_ascii c) (lower s)).
    rewrite H. reflexivity.
  - specialize (IH H). cbn [rstrip].
    destruct (rstrip s) as [|c' r] eqn:E; [discriminate IH|].
    replace (String c' r =? "") with false by reflexivity.
    rewrite andb_false_r.
    change (lower (String c (String c' r)))
      with (String (lower_ascii c) (lower (String c' r))).
    rewrite endswith_cons, IH. apply orb_true_r.
Qed.

Lemma endswith_csv_strip (s : string) :
  endswith ".csv" (lower s) = true -> endswith ".csv" (lower (strip s)) = true.
Proof.
  intros H. apply endswith_csv_rstrip, endswith_csv_lstrip, H.
Qed.

Lemma parse_item_inr (item : string) (p : string * string) :
  parse_item item = inr p <-> well_formed item p.
Proof.
  unfold parse_item, well_formed.
  destruct (contains "=" item) eqn:Hc; simpl.
  - apply contains_split_once in Hc as (a & b & Hs). rewrite Hs.
    pose proof (proj1 (split_once_spec _ _ _ _) Hs) as [Hitem Ha].
    destruct (endswith ".csv" (lower b)) eqn:He; simpl.
    + split.
      * intros [= <-]. exists a, b. auto.
      * intros (l & q & Hi & Hl & _ & ->).
        assert (split_once "=" item = (l, Some q)) as Hs'.
        { apply split_once_spec. auto. }
        rewrite Hs in Hs'. injection Hs' as -> ->. reflexivity.
    + split; [discriminate|].
      intros (l & q & Hi & Hl & Hq & _).
      assert (split_once "=" item = (l, Some q)) as Hs'.
      { apply split_once_spec. auto. }
      rewrite Hs in Hs'. injection Hs' as -> ->. congruence.
  - split; [discriminate|].
    intros (l & q & Hi & Hl & _).
    assert (split_once "=" item = (l, Some q)) as Hs'.
    { apply split_once_spec. auto. }
    assert (contains "=" item = true) as Hc'.
    { apply contains_split_once. eauto. }
    congruence.
Qed.

Lemma parse_items_inr (items : list string) (acc res : list (string * string)) :
  parse_items items acc = inr res <->
  exists ps, Forall2 (fun item p => parse_item item = inr p) items ps /\
             res = (acc ++ ps)%list.
Proof.
  revert acc. induction items as [|item items IH]; intros acc; simpl.
  - split.
    + intros [= <-]. exists []. split; [constructor|].
      rewrite app_nil_r. reflexivity.
    + intros (ps & Hf & ->). apply Forall2_nil_inv_l in Hf as ->.
      rewrite app_nil_r. reflexivity.
  - destruct (parse_item item) as [e|p] eqn:E.
    + split; [discriminate|]. intros (ps & Hf & _).
      apply Forall2_cons_inv_l in Hf as (p & ps' & Hp & _ & _). congruence.
    + rewrite IH. split.
      * intros (ps & Hf & ->). exists (p :: ps). split; [constructor; auto|].
        rewrite <- app_assoc. reflexivity.
      * intros (ps & Hf & ->).
        apply Forall2_cons_inv_l in Hf as (p' & ps' & Hp & Hf & ->).
        assert (p' = p) as -> by congruence. exists ps'. split; [exact Hf|].
        rewrite <- app_assoc. reflexivity.
Qed.

Lemma parse_items_inl (items : list string) (acc : list (string * string))
    (e : parse_error) :
  parse_items items acc = inl e <->
  exists ok item rest,
    items = (ok ++ item :: rest)%list /\
    Forall (fun i => exists p, parse_item i = inr p) ok /\
    parse_item item = inl e.
Proof.
  revert acc. induction items as [|item items IH]; intros acc; simpl.
  - split; [discriminate|]. intros (ok & i & rest & H & _).
    destruct ok; discriminate H.
  - destruct (parse_item item) as [e'|p] eqn:E.
    + split.
      * intros [= <-]. exists [], item, items. auto.
      * intros (ok & i & rest & H & Hok & Hi).
        destruct ok as [|o ok]; simpl in H; injection H as <- ->.
        -- congruence.
        -- apply Forall_cons in Hok as [(p & Hp) _]. congruence.
    + rewrite IH. split.
      * intros (ok & i & rest & -> & Hok & Hi).
        exists (item :: ok), i, rest. split; [reflexivity|].
        split; [constructor; eauto | exact Hi].
      * intros (ok & i & rest & H & Hok & Hi).
        destruct ok as [|o ok]; simpl in H; injection H as <- ->.
        -- congruence.
        -- apply Forall_cons in Hok as [_ Hok]. eauto 6.
Qed.

Lemma parse_item_inl (item : string) (e : parse_error) :
  parse_item item = inl e <->
  (contains "=" item = false /\ e = InvalidValue item) \/
  (exists label path,
      item = label ++ "=" ++ path /\ contains "=" label = false /\
      endswith ".csv" (lower path) = false /\ e = NotCsv path).
Proof.
  unfold parse_item. destruct (contains "=" item) eqn:Hc; simpl.
  - apply contains_split_once in Hc as (a & b & Hs). rewrite Hs.
    pose proof (proj1 (split_once_spec _ _ _ _) Hs) as [Hitem Ha].
    destruct (endswith ".csv" (lower b)) eqn:He; simpl.
    + split; [discriminate|]. intros [[H _]|(l & q & Hi & Hl & Hq & _)];
        [discriminate H|].
      assert (split_once "=" item = (l, Some q)) as Hs'.
      { apply split_once_spec. auto. }
      rewrite Hs in Hs'. injection Hs' as -> ->. congruence.
    + split.
      * intros [= <-]. right. exists a, b. auto.
      * intros [[H _]|(l & q & Hi & Hl & Hq & ->)]; [discriminate H|].
        assert (split_once "=" item = (l, Some q)) as Hs'.
        { apply split_once_spec. auto. }
        rewrite Hs in Hs'. injection Hs' as -> ->. reflexivity.
  - split.
    + intros [= <-]. left. auto.
    + intros [[_ ->]|(l & q & Hi & Hl & _)]; [reflexivity|].
      assert (contains "=" item = true) as Hc'.
      { apply contains_split_once. exists l, q.
        apply split_once_spec. auto. }
      congruence.
Qed.

Lemma contains_lstrip (sep : ascii) (s : string) :
  contains sep s = false -> contains sep (lstrip s) = false.
Proof.
  induction s as [|c s IH]; simpl; [auto|].
  destruct (is_space c); [|auto].
  intros H. apply orb_false_iff in H as [_ H]. auto.
Qed.

Lemma contains_rstrip (sep : ascii) (s : string) :
  contains sep s = false -> contains sep (rstrip s) = false.
Proof.
  induction s as [|c s IH]; simpl; [auto|].
  intros H. apply orb_false_iff in H as [Hc H].
  destruct (is_space c && (rstrip s =? "")); [reflexivity|].
  simpl. rewrite Hc. auto.
Qed.

(** X1: the values are accepted exactly when every one of them has an
    ["="] and the part after the first ["="] ends in [".csv"], whatever
    the case of the letters. *)
Theorem parse_prev_courses_accepts (pairs : option (list string)) :
  (exists res, parse_prev_courses pairs = inr res) <->
  (forall item, item ∈ default [] pairs ->
     exists label path,
       item = label ++ "=" ++ path /\ contains "=" label = false /\
       endswith ".csv" (lower path) = true).
Proof.
  unfold parse_prev_courses. generalize (default [] pairs) as items.
  intros items. split.
  - intros (res & Hres). apply parse_items_inr in Hres as (ps & Hf & _).
    intros item Hitem.
    apply list_elem_of_lookup in Hitem as (i & Hi).
    destruct (Forall2_lookup_l _ _ _ _ _ Hf Hi) as (p & _ & Hp).
    apply parse_item_inr in Hp as (l & q & H1 & H2 & H3 & _). eauto.
  - intros Hall.
    destruct (parse_items items []) as [e|res] eqn:E; [|eauto].
    apply parse_items_inl in E as (ok & item & rest & -> & _ & He).
    destruct (Hall item) as (l & q & H1 & H2 & H3).
    { apply elem_of_app. right. left. }
    assert (parse_item item = inr (strip l, strip q)) as Hp.
    { apply parse_item_inr. exists l, q. auto. }
    congruence.
Qed.

Lemma parse_prev_courses_accepts_witness :
  exists res, parse_prev_courses (Some ["2021-22=/data/a.CSV"]) = inr res.
Proof.
  apply (proj2 (parse_prev_courses_accepts (Some ["2021-22=/data/a.CSV"]))).
  intros item Hitem. apply list_elem_of_singleton in Hitem as ->.
  exists "2021-22", "/data/a.CSV". repeat split.
Defined.

(** X2: on success there is one pair per value, in the order of the
    values: the stripped text before the first ["="] and the stripped text
    after it. No returned label has an ["="], and every returned path
    still ends in [".csv"]. *)
Theorem parse_prev_courses_result (pairs : option (list string))
    (res : list (string * string)) :
  parse_prev_courses pairs = inr res ->
  Forall2 well_formed (default [] pairs) res /\
  Forall (fun p => contains "=" p.1 = false /\
                   endswith ".csv" (lower p.2) = true) res.
Proof.
  unfold parse_prev_courses. intros H.
  apply parse_items_inr in H as (ps & Hf & ->). simpl.
  assert (Forall2 well_formed (default [] pairs) ps) as Hw.
  { eapply Forall2_impl; [exact Hf|]. intros item p Hp.
    apply parse_item_inr, Hp. }
  split; [exact Hw|].
  apply Forall_forall. intros p Hp.
  apply list_elem_of_lookup in Hp as (i & Hi).
  destruct (Forall2_lookup_r _ _ _ _ _ Hw Hi) as (item & _ & Hitem).
  destruct Hitem as (l & q & _ & Hl & Hq & ->). simpl. split.
  - apply contains_rstrip, contains_lstrip, Hl.
  - apply endswith_csv_strip, Hq.
Qed.

Lemma parse_prev_courses_result_witness :
  Forall2 well_formed ["2021-22 = /data/a.csv"] [("2021-22", "/data/a.csv")].
Proof.
  apply (parse_prev_courses_result (Some ["2021-22 = /data/a.csv"])).
  reflexivity.
Defined.

(** X3: when the values are rejected, the error is the one of the first
    value that is not well formed: [InvalidValue] with the value when it
    has no ["="], [NotCsv] with the text after its first ["="] otherwise. *)
Theorem parse_prev_courses_first_error (pairs : option (list string))
    (e : parse_error) :
  parse_prev_courses pairs = inl e ->
  exists ok item rest,
    default [] pairs = (ok ++ item :: rest)%list /\
    Forall (fun i => exists p, well_formed i p) ok /\
    ((contains "=" item = false /\ e = InvalidValue item) \/
     (exists label path,
         item = label ++ "=" ++ path /\ contains "=" label = false /\
         endswith ".csv" (lower path) = false /\ e = NotCsv path)).
Proof.
  unfold parse_prev_courses. intros H.
  apply parse_items_inl in H as (ok & item & rest & Hi & Hok & He).
  exists ok, item, rest. split; [exact Hi|]. split.
  - eapply Forall_impl; [exact Hok|]. intros i (p & Hp). exists p.
    apply parse_item_inr, Hp.
  - apply parse_item_inl, He.
Qed.

Lemma parse_prev_courses_first_error_witness :
  exists ok item rest,
    ["a=b.csv"; "c=d.txt "; "nothing"] = (ok ++ item :: rest)%list /\
    Forall (fun i => exists p, well_formed i p) ok /\
    ((contains "=" item = false /\ NotCsv "d.txt " = InvalidValue item) \/
     (exists label path,
         item = label ++ "=" ++ path /\ contains "=" label = false /\
         endswith ".csv" (lower path) = false /\ NotCsv "d.txt " = NotCsv path)).
Proof.
  apply (parse_prev_courses_first_error
           (Some ["a=b.csv"; "c=d.txt "; "nothing"]) (NotCsv "d.txt ")).
  reflexivity.
Defined.

Lemma lower_ascii_idemp (c : ascii) : lower_ascii (lower_ascii c) = lower_ascii c.
Proof. destruct c as [[] [] [] [] [] [] [] []]; reflexivity. Qed.

Lemma lower_idemp (s : string) : lower (lower s) = lower s.
Proof.
  induction s as [|c s IH]; simpl; [reflexivity|].
  rewrite lower_ascii_idemp, IH. reflexivity.
Qed.

(** X4: a header is accepted exactly when each of the seven required
    column names occurs in it, whatever the case of the letters, and the
    frame then carries the lower-cased names; a rejected header is
    reported with the required names that do not occur, and there is one.
    A header and its lower-cased form are treated alike. *)
Theorem load_prior_courses_accepts (columns : list string) :
  (forall cols, load_prior_courses columns = inr cols <->
     cols = lower <$> columns /\
     forall c, c ∈ required -> exists col, col ∈ columns /\ lower col = c) /\
  (forall missing, load_prior_courses columns = inl missing ->
     missing <> [] /\
     forall c, c ∈ missing <->
       c ∈ required /\ forall col, col ∈ columns -> lower col <> c) /\
  load_prior_courses (lower <$> columns) = load_prior_courses columns.
Proof.
  assert (forall c, c ∈ filter (fun c => c ∉ lower <$> columns) required <->
            c ∈ required /\ forall col, col ∈ columns -> lower col <> c) as Hmiss.
  { intros c. rewrite list_elem_of_filter, list_elem_of_fmap. split.
    - intros [Hn Hr]. split; [exact Hr|]. intros col Hcol Heq.
      apply Hn. exists col. auto.
    - intros [Hr Hn]. split; [|exact Hr]. intros (col & -> & Hcol).
      apply (Hn col Hcol). reflexivity. }
  unfold load_prior_courses. split; [|split].
  - intros cols.
    destruct (decide (filter (fun c => c ∉ lower <$> columns) required = []))
      as [E|E].
    + split.
      * intros [= <-]. split; [reflexivity|]. intros c Hc.
        destruct (decide (c ∈ lower <$> columns)) as [Hin|Hout].
        -- apply list_elem_of_fmap in Hin as (col & -> & Hcol). eauto.
        -- exfalso. apply (filter_nil_not_elem_of _ _ c E); assumption.
      * intros [-> _]. reflexivity.
    + split; [discriminate|]. intros [_ Hall]. exfalso. apply E.
      apply elem_of_nil_inv. intros c Hc.
      apply list_elem_of_filter in Hc as [Hn Hc].
      destruct (Hall c Hc) as (col & Hcol & <-).
      apply Hn, list_elem_of_fmap. eauto.
  - intros missing.
    destruct (decide (filter (fun c => c ∉ lower <$> columns) required = []))
      as [E|E]; [discriminate|].
    intros [= <-]. split; [exact E | exact Hmiss].
  - rewrite <- list_fmap_compose.
    rewrite (list_fmap_ext (lower ∘ lower) lower columns); [reflexivity|].
    intros i c _. apply lower_idemp.
Qed.

Lemma load_prior_courses_accepts_witness :
  load_prior_courses
    ["School_Year"; "STUDENT_ID"; "Credits"; "is_passing"; "Mark";
     "numeric_equivalent"; "grade_average_factor"; "Grade_Averaged_Flag"]
  = inr ["school_year"; "student_id"; "credits"; "is_passing"; "mark";
         "numeric_equivalent"; "grade_average_factor"; "grade_averaged_flag"].
Proof.
  apply (proj1 (load_prior_courses_accepts _)). split; [reflexivity|].
  intros c Hc. unfold required in Hc.
  apply elem_of_cons in Hc as [->|Hc];
    [exists "School_Year"; split; [repeat constructor | reflexivity]|].
  apply elem_of_cons in Hc as [->|Hc];
    [exists "STUDENT_ID"; split; [repeat constructor | reflexivity]|].
  apply elem_of_cons in Hc as [->|Hc];
    [exists "Credits"; split; [repeat constructor | reflexivity]|].
  apply elem_of_cons in Hc as [->|Hc];
    [exists "is_passing"; split; [repeat constructor | reflexivity]|].
  apply elem_of_cons in Hc as [->|Hc];
    [exists "numeric_equivalent"; split; [repeat constructor | reflexivity]|].
  apply elem_of_cons in Hc as [->|Hc];
    [exists "grade_average_factor"; split; [repeat constructor | reflexivity]|].
  apply elem_of_cons in Hc as [->|Hc];
    [exists "Grade_Averaged_Flag"; split; [repeat constructor | reflexivity]|].
  apply elem_of_nil in Hc. contradiction.
Defined.

End CliFacts.

(** * Properties of the Coursegrade Assembler *)

Module AssemblerFacts.
Import Frame CourseFlag Assembler.

Section Merge.
Context {L R K : Type} `{EqDecision K} (lkey : L -> K) (rkey : R -> K).

(** A key that occurs once in the right frame has at most one match. *)
Lemma matches_NoDup (right : list R) (l : L) :
  NoDup (rkey <$> right) ->
  matches lkey rkey l right = option_list (head (matches lkey rkey l right)).
Proof.
  unfold matches. induction right as [|r right IH]; [reflexivity|].
  rewrite fmap_cons, NoDup_cons. intros [Hr Hnd].
  rewrite filter_cons. destruct (decide (rkey r = lkey l)) as [E|E]; [|auto].
  simpl. f_equal. apply elem_of_nil_inv. intros r' Hr'.
  apply list_elem_of_filter in Hr' as [E' Hr']. apply Hr.
  rewrite E, <- E'. apply list_elem_of_fmap_2, Hr'.
Qed.

Lemma head_matches_Some (right : list R) (l : L) :
  is_Some (head (matches lkey rkey l right)) <-> lkey l ∈ rkey <$> right.
Proof.
  unfold matches. rewrite list_elem_of_fmap. split.
  - intros [r Hr]. apply head_Some_elem_of, list_elem_of_filter in Hr as [E Hr].
    eauto.
  - intros (r & E & Hr).
    destruct (filter (fun r => rkey r = lkey l) right) as [|r' rs] eqn:Hf;
      [|eexists; reflexivity].
    exfalso. apply (filter_nil_not_elem_of _ _ r Hf); auto.
Qed.

(** Under [validate="m:1"] an inner join keeps each left row at most once,
    in order, with its single match. *)
Lemma inner_rows_NoDup (left : list L) (right : list R) :
  NoDup (rkey <$> right) ->
  inner_rows lkey rkey left right =
  omap (fun l => (fun r => (l, r)) <$> head (matches lkey rkey l right)) left.
Proof.
  intros Hnd. unfold inner_rows.
  induction left as [|l left IH]; [reflexivity|].
  rewrite bind_cons, IH, (matches_NoDup right l Hnd). simpl.
  destruct (head (matches lkey rkey l right)); reflexivity.
Qed.

(** Under [validate="m:1"] a left join keeps each left row exactly once,
    in order, with its single match or none. *)
Lemma left_rows_NoDup (left : list L) (right : list R) :
  NoDup (rkey <$> right) ->
  left_rows lkey rkey left right =
  (fun l => (l, head (matches lkey rkey l right))) <$> left.
Proof.
  intros Hnd. unfold left_rows.
  induction left as [|l left IH]; [reflexivity|].
  rewrite bind_cons, IH, (matches_NoDup right l Hnd). simpl.
  destruct (head (matches lkey rkey l right)); reflexivity.
Qed.

Lemma validate_m1_Some {O : Type} (right : list R) (rows out : list O) :
  validate_m1 rkey right rows = Some out <->
  NoDup (rkey <$> right) /\ out = rows.
Proof.
  unfold validate_m1. destruct (decide (NoDup (rkey <$> right))).
  - split; [intros [= <-]; auto | intros [_ ->]; reflexivity].
  - split; [discriminate | intros [H _]; contradiction].
Qed.

Lemma validate_m1_None {O : Type} (right : list R) (rows : list O) :
  validate_m1 rkey right rows = None <-> ~ NoDup (rkey <$> right).
Proof.
  unfold validate_m1. destruct (decide (NoDup (rkey <$> right))).
  - split; [discriminate | intros H; contradiction].
  - split; auto.
Qed.
End Merge.

Section Keys.
Context {R K : Type} `{EqDecision K} (key : R -> K).

Lemma NoDup_keys_of_rows_of (l : list R) :
  (forall k, length (rows_of key k l) <= 1)%nat -> NoDup (key <$> l).
Proof.
  unfold rows_of. induction l as [|x l IH]; intros Hlen; [constructor|].
  rewrite fmap_cons. apply NoDup_cons. split.
  - intros Hin. apply list_elem_of_fmap in Hin as (y & Hk & Hy).
    specialize (Hlen (key x)). rewrite filter_cons_True in Hlen by reflexivity.
    assert (y ∈ filter (fun r => key r = key x) l) as Hy'.
    { apply list_elem_of_filter. auto. }
    destruct (filter (fun r => key r = key x) l); simpl in Hlen;
      [apply elem_of_nil in Hy'; contradiction | lia].
  - apply IH. intros k. specialize (Hlen k). rewrite filter_cons in Hlen.
    destruct (decide (key x = k)); simpl in Hlen; lia.
Qed.
End Keys.

(** The deduplicated flags have one row per key. *)
Lemma NoDup_dedupe_courseflag (df : list courseflag) :
  NoDup (key_of <$> dedupe_courseflag df).
Proof.
  apply NoDup_keys_of_rows_of. intros k. unfold dedupe_courseflag.
  rewrite FrameFacts.rows_of_drop_duplicates.
  destruct (head _); simpl; lia.
Qed.

Lemma omap_omap {A B C : Type} (f : A -> option B) (g : B -> option C)
    (l : list A) :
  omap g (omap f l) = omap (fun x => f x ≫= g) l.
Proof.
  induction l as [|x l IH]; [reflexivity|].
  cbn [omap list_omap]. destruct (f x) as [y|]; simpl; [|exact IH].
  destruct (g y); simpl; [f_equal|]; exact IH.
Qed.

Lemma omap_fmap {A B C : Type} (f : A -> B) (g : B -> option C) (l : list A) :
  omap g (f <$> l) = omap (fun x => g (f x)) l.
Proof.
  induction l as [|x l IH]; [reflexivity|].
  simpl. destruct (g (f x)); [f_equal|]; exact IH.
Qed.

Lemma fmap_omap {A B C : Type} (f : A -> option B) (g : B -> C) (l : list A) :
  g <$> omap f l = omap (fun x => g <$> f x) l.
Proof.
  induction l as [|x l IH]; [reflexivity|].
  simpl. destruct (f x); simpl; [f_equal|]; exact IH.
Qed.

Lemma omap_ext_fun {A B : Type} (f g : A -> option B) (l : list A) :
  (forall x, f x = g x) -> omap f l = omap g l.
Proof.
  intros H. induction l as [|x l IH]; [reflexivity|].
  simpl. rewrite H. destruct (g x); [f_equal|]; exact IH.
Qed.

Lemma mark_of_finish (m4 : m4_row) : mark_of (finish m4) = m4.1.1.1.1.
Proof. destruct m4 as [[[[[] ?] ?] ?] ?]. reflexivity. Qed.

(** When the four validations pass, the assembled frame is the frame of
    the row-wise look-ups. *)
Lemma compute_current_year_coursegrades_Some (queried : tables)
    (out : list assembled) :
  compute_current_year_coursegrades queried = Some out <->
  (NoDup (info_key <$> tbl_CourseInfo queried) /\
   NoDup (sc_SchoolDBN <$> tbl_School queried) /\
   NoDup (md_key <$> tbl_MarkDefinition queried)) /\
  out = omap (assemble_mark (load_current_year_data queried))
          (tbl_StudentMarks queried).
Proof.
  unfold compute_current_year_coursegrades.
  set (t := load_current_year_data queried).
  assert (NoDup (key_of <$> tbl_CourseFlag t)) as Hfl
    by apply NoDup_dedupe_courseflag.
  change (tbl_CourseInfo queried) with (tbl_CourseInfo t).
  change (tbl_School queried) with (tbl_School t).
  change (tbl_MarkDefinition queried) with (tbl_MarkDefinition t).
  change (tbl_StudentMarks queried) with (tbl_StudentMarks t).
  generalize (tbl_StudentMarks t) as marks. intros marks.
  clearbody t. unfold validate_m1.
  destruct (decide (NoDup (info_key <$> tbl_CourseInfo t))) as [H1|H1];
    [|simpl; split; [discriminate | tauto]].
  simpl. rewrite decide_True by exact Hfl. simpl.
  destruct (decide (NoDup (sc_SchoolDBN <$> tbl_School t))) as [H3|H3];
    [|simpl; split; [discriminate | tauto]].
  simpl.
  destruct (decide (NoDup (md_key <$> tbl_MarkDefinition t))) as [H4|H4];
    [|simpl; split; [discriminate | tauto]].
  simpl.
  assert (finish <$>
            left_rows m3_markdef_key md_key
              (inner_rows (fun m2 : m2_row => sm_SchoolDBN m2.1.1) sc_SchoolDBN
                 (left_rows mark_flag_key key_of
                    (inner_rows mark_course_key info_key marks
                       (tbl_CourseInfo t)) (tbl_CourseFlag t))
                 (tbl_School t)) (tbl_MarkDefinition t)
          = omap (assemble_mark t) marks) as ->.
  { rewrite (left_rows_NoDup _ _ _ _ H4), (inner_rows_NoDup _ _ _ _ H3),
      (left_rows_NoDup _ _ _ _ Hfl), (inner_rows_NoDup _ _ _ _ H1).
    rewrite omap_fmap, omap_omap, <- list_fmap_compose, fmap_omap.
    apply omap_ext_fun. intros sm. unfold assemble_mark.
    destruct (head (matches mark_course_key info_key sm (tbl_CourseInfo t)))
      as [ci|]; [|reflexivity].
    simpl.
    change (matches (fun m2 : m2_row => sm_SchoolDBN m2.1.1) sc_SchoolDBN
              (sm, ci, head (matches mark_flag_key key_of (sm, ci)
                               (tbl_CourseFlag t))) (tbl_School t))
      with (matches sm_SchoolDBN sc_SchoolDBN sm (tbl_School t)).
    destruct (head (matches sm_SchoolDBN sc_SchoolDBN sm (tbl_School t)));
      reflexivity. }
  split; [intros [= <-]; auto | intros [_ ->]; reflexivity].
Qed.

Lemma assemble_mark_Some (t : tables) (sm : studentmark) (a : assembled) :
  assemble_mark t sm = Some a ->
  mark_of a = sm /\
  grade_average_factor (cols a) =
    head (matches mark_course_key info_key sm (tbl_CourseInfo t))
      ≫= ci_GradeAverageFactor /\
  grade_averaged_flag (cols a) =
    head (rows_of key_of (flag_key_of a) (tbl_CourseFlag t))
      ≫= GradeAveragedFlag /\
  is_passing (cols a) =
    head (rows_of md_key (markdef_key_of a) (tbl_MarkDefinition t))
      ≫= md_isPassing /\
  numeric_equivalent (cols a) =
    head (rows_of md_key (markdef_key_of a) (tbl_MarkDefinition t))
      ≫= md_NumericEquivalent.
Proof.
  unfold assemble_mark.
  destruct (head (matches mark_course_key info_key sm (tbl_CourseInfo t)))
    as [ci|]; [|discriminate].
  simpl.
  destruct (head (matches sm_SchoolDBN sc_SchoolDBN sm (tbl_School t)))
    as [sc|]; [|discriminate].
  simpl. intros [= <-]. destruct sm. repeat split.
Qed.

Lemma assemble_mark_is_Some (t : tables) (sm : studentmark) :
  is_Some (assemble_mark t sm) <-> has_info t sm /\ has_school t sm.
Proof.
  unfold has_info, has_school.
  rewrite <- (head_matches_Some mark_course_key info_key),
    <- (head_matches_Some sm_SchoolDBN sc_SchoolDBN).
  unfold assemble_mark.
  destruct (head (matches mark_course_key info_key sm (tbl_CourseInfo t)))
    as [ci|]; simpl.
  - destruct (head (matches sm_SchoolDBN sc_SchoolDBN sm (tbl_School t)))
      as [sc|]; simpl.
    + split; [intros _; split; eexists; reflexivity | intros _; eexists; reflexivity].
    + split; [intros [? [=]] | intros [_ [? [=]]]].
  - split; [intros [? [=]] | intros [[? [=]] _]].
Qed.

Lemma head_rows_of_dedupe (df : list courseflag) (k : flag_key) :
  head (rows_of key_of k (dedupe_courseflag df)) = head (rows_of key_of k df).
Proof.
  unfold dedupe_courseflag.
  rewrite FrameFacts.rows_of_drop_duplicates.
  rewrite (FrameFacts.rows_of_sort_values key_of key_leb
             CourseFlagFacts.key_leb_refl).
  destruct (head (rows_of key_of k df)); reflexivity.
Qed.

(** X5: the assembly fails exactly when a key occurs twice in the course
    information, in the schools or in the mark definitions; the flags,
    which are deduplicated when they are loaded, never make it fail. *)
Theorem assembler_fails_on_duplicate_keys (queried : tables) :
  compute_current_year_coursegrades queried = None <->
  ~ NoDup (info_key <$> tbl_CourseInfo queried) \/
  ~ NoDup (sc_SchoolDBN <$> tbl_School queried) \/
  ~ NoDup (md_key <$> tbl_MarkDefinition queried).
Proof.
  destruct (compute_current_year_coursegrades queried) as [out|] eqn:E.
  - apply compute_current_year_coursegrades_Some in E as [(H1 & H2 & H3) _].
    split; [discriminate | tauto].
  - split; [|reflexivity]. intros _.
    destruct (decide (NoDup (info_key <$> tbl_CourseInfo queried))) as [H1|H1];
      [|tauto].
    destruct (decide (NoDup (sc_SchoolDBN <$> tbl_School queried))) as [H2|H2];
      [|tauto].
    destruct (decide (NoDup (md_key <$> tbl_MarkDefinition queried)))
      as [H3|H3]; [|tauto].
    exfalso.
    assert (compute_current_year_coursegrades queried =
            Some (omap (assemble_mark (load_current_year_data queried))
                    (tbl_StudentMarks queried))) as E'.
    { apply compute_current_year_coursegrades_Some. auto. }
    congruence.
Qed.

(** X6: when the assembly succeeds, its rows are the mark records that
    have a course information and a school, each one once and in the order
    of the marks: no join multiplies a row, and a mark without a flag or
    without a mark definition is kept. *)
Theorem assembler_keeps_marks (queried : tables) (out : list assembled) :
  compute_current_year_coursegrades queried = Some out ->
  mark_of <$> out =
  filter (fun sm => has_info queried sm /\ has_school queried sm)
    (tbl_StudentMarks queried).
Proof.
  intros H. apply compute_current_year_coursegrades_Some in H as [_ ->].
  set (t := load_current_year_data queried).
  induction (tbl_StudentMarks queried) as [|sm marks IH]; [reflexivity|].
  cbn [omap list_omap]. rewrite filter_cons.
  pose proof (assemble_mark_is_Some t sm) as Hs.
  destruct (assemble_mark t sm) as [a|] eqn:E.
  - rewrite decide_True by (apply Hs; eexists; reflexivity).
    rewrite fmap_cons. f_equal; [|exact IH].
    apply (assemble_mark_Some t sm a E).
  - rewrite decide_False; [exact IH|].
    intros Hc. apply Hs in Hc as [? [=]].
Qed.

Lemma assembler_keeps_marks_witness :
  mark_of <$> default [] (compute_current_year_coursegrades sample_tables) =
  filter (fun sm => has_info sample_tables sm /\ has_school sample_tables sm)
    (tbl_StudentMarks sample_tables).
Proof.
  apply (assembler_keeps_marks sample_tables). vm_compute. reflexivity.
Defined.

(** X7: the flag of an assembled row is the flag of the first flag record,
    in the order of the query result, that has the key of the row, and is
    null when there is none; its [is_passing] and [numeric_equivalent] are
    those of the mark definition of its key, null when there is none. *)
Theorem assembler_looked_up_columns (queried : tables) (out : list assembled)
    (a : assembled) :
  compute_current_year_coursegrades queried = Some out -> a ∈ out ->
  grade_averaged_flag (cols a) =
    head (rows_of key_of (flag_key_of a) (tbl_CourseFlag queried))
      ≫= GradeAveragedFlag /\
  is_passing (cols a) =
    head (rows_of md_key (markdef_key_of a) (tbl_MarkDefinition queried))
      ≫= md_isPassing /\
  numeric_equivalent (cols a) =
    head (rows_of md_key (markdef_key_of a) (tbl_MarkDefinition queried))
      ≫= md_NumericEquivalent.
Proof.
  intros H Ha. apply compute_current_year_coursegrades_Some in H as [_ ->].
  apply list_elem_of_omap in Ha as (sm & _ & Hsm).
  apply assemble_mark_Some in Hsm as (_ & _ & Hf & Hp & Hn).
  rewrite Hf, Hp, Hn. simpl. rewrite head_rows_of_dedupe. auto.
Qed.

Lemma assembler_looked_up_columns_witness :
  exists a, a ∈ default [] (compute_current_year_coursegrades sample_tables) /\
    grade_averaged_flag (cols a) = Samples.num 1.
Proof.
  remember (compute_current_year_coursegrades sample_tables) as o eqn:E.
  symmetry in E. destruct o as [out|]; [|vm_compute in E; discriminate E].
  pose proof E as E'. vm_compute in E'. injection E' as <-.
  eexists. split; [left|].
  rewrite (proj1 (assembler_looked_up_columns sample_tables _ _ E
                    (list_elem_of_here _ _))).
  vm_compute. reflexivity.
Defined.

(** X8: an assembled row whose key has no flag record, or whose mark has
    no mark definition, is not eligible: it never counts in a total. *)
Theorem unmatched_row_not_eligible (queried : tables) (out : list assembled)
    (a : assembled) :
  compute_current_year_coursegrades queried = Some out -> a ∈ out ->
  flag_key_of a ∉ key_of <$> tbl_CourseFlag queried \/
  markdef_key_of a ∉ md_key <$> tbl_MarkDefinition queried ->
  Aggregator.eligible (cols a) = false.
Proof.
  intros H Ha Hno. apply compute_current_year_coursegrades_Some in H as [_ ->].
  apply list_elem_of_omap in Ha as (sm & _ & Hsm).
  apply assemble_mark_Some in Hsm as (_ & _ & Hf & _ & Hn).
  unfold Aggregator.eligible. rewrite Hf, Hn. simpl.
  rewrite head_rows_of_dedupe.
  assert (forall {R K : Type} `{EqDecision K} (key : R -> K) k (l : list R),
             k ∉ key <$> l -> head (rows_of key k l) = None) as Hnone.
  { intros R K ? key k l Hk. unfold rows_of.
    destruct (filter (fun r => key r = k) l) as [|r rs] eqn:Hfl; [reflexivity|].
    exfalso. apply Hk.
    assert (r ∈ filter (fun r => key r = k) l) as Hr by (rewrite Hfl; left).
    apply list_elem_of_filter in Hr as [<- Hr].
    apply list_elem_of_fmap_2, Hr. }
  destruct Hno as [Hno|Hno]; rewrite (Hnone _ _ _ _ _ _ Hno); simpl.
  - reflexivity.
  - apply negb_false_iff, orb_true_r.
Qed.

Lemma unmatched_row_not_eligible_witness :
  exists a, a ∈ default [] (compute_current_year_coursegrades sample_tables) /\
    Aggregator.eligible (cols a) = false.
Proof.
  remember (compute_current_year_coursegrades sample_tables) as o eqn:E.
  symmetry in E. destruct o as [out|]; [|vm_compute in E; discriminate E].
  pose proof E as E'. vm_compute in E'. injection E' as <-.
  eexists. split; [right; left|].
  apply (unmatched_row_not_eligible sample_tables _ _ E);
    [right; left|].
  left. intros Hin. vm_compute in Hin.
  apply elem_of_cons in Hin as [Hin|Hin]; [discriminate Hin|].
  apply elem_of_cons in Hin as [Hin|Hin]; [discriminate Hin|].
  apply elem_of_nil in Hin. exact Hin.
Defined.

End AssemblerFacts.

(** * Further properties of the Deriver *)

Module DeriverMoreFacts.
Import Deriver DeriverTable.








End DeriverMoreFacts.

(** * Properties of the aggregation pipeline as a whole *)

Module PipelineFacts.
Import Frame SpecSum SpecRows Aggregator Combiner GroupFacts AggregatorFacts CombinerFacts.

(** X9: the yearly aggregate has one row for each (school_year,
    student_id) that has an eligible row, and no other; its rows are in
    increasing key order, a missing key last. *)
Theorem yearly_totals_keys (df : list coursegrade) :
  NoDup (yr_key <$> compute_yearly_totals df) /\
  StronglySorted optZ2_le (yr_key <$> compute_yearly_totals df) /\
  forall k, k ∈ yr_key <$> compute_yearly_totals df <->
    exists r, r ∈ df /\ eligible r = true /\ (school_year r, student_id r) = k.
Proof.
  rewrite keys_compute_yearly_totals. split; [apply NoDup_group_keys|].
  split; [apply StronglySorted_merge_sort; apply _|].
  intros k. rewrite elem_of_group_keys. split.
  - intros (t & Ht & Hk). apply list_elem_of_fmap in Ht as (r & -> & Hr).
    apply list_elem_of_filter in Hr as [He Hr]. eauto.
  - intros (r & Hr & He & Hk). exists (row_totals r). split; [|exact Hk].
    apply list_elem_of_fmap_2, list_elem_of_filter. auto.
Qed.

(** X10: the cumulative output has one row for each student of a yearly
    aggregate, and no other, in increasing order of the student
    identifier, a missing identifier last. *)
Theorem combine_keys (all_frames : list (list totals_row)) :
  NoDup (cum_student_id <$> combine all_frames) /\
  StronglySorted optZ_le (cum_student_id <$> combine all_frames) /\
  forall k, k ∈ cum_student_id <$> combine all_frames <->
    exists frame y, frame ∈ all_frames /\ y ∈ frame /\ yr_student_id y = k.
Proof.
  rewrite keys_combine. split; [apply NoDup_group_keys|].
  split; [apply StronglySorted_merge_sort; apply _|].
  intros k. rewrite elem_of_group_keys. split.
  - intros (y & Hy & Hk).
    apply list_elem_of_In, in_concat in Hy as (frame & Hf & Hy).
    exists frame, y. rewrite !list_elem_of_In. auto.
  - intros (frame & y & Hf & Hy & Hk). exists y. split; [|exact Hk].
    apply list_elem_of_In, in_concat. exists frame.
    rewrite <- !list_elem_of_In. auto.
Qed.

(** ** The roster join *)

Lemma filter_or_disjoint {A : Type} (P Q : A -> Prop)
    `{forall x, Decision (P x)} `{forall x, Decision (Q x)} (l : list A) :
  (forall x, P x -> Q x -> False) ->
  filter (fun x => P x \/ Q x) l ≡ₚ filter P l ++ filter Q l.
Proof.
  intros Hd. induction l as [|x l IH]; [reflexivity|].
  rewrite !filter_cons.
  destruct (decide (P x)) as [Hp|Hp], (decide (Q x)) as [Hq|Hq].
  - exfalso. eauto.
  - rewrite decide_True by auto. simpl. rewrite IH. reflexivity.
  - rewrite decide_True by auto. rewrite IH. apply Permutation_middle.
  - rewrite decide_False by tauto. exact IH.
Qed.

Lemma merge_biog_Some (biog : list biog_row) (coursegrades merged : list coursegrade) :
  merge_biog biog coursegrades = Some merged ->
  NoDup (biog_student_id <$> biog) /\
  merged ≡ₚ
    filter (fun r => student_id r ∈ biog_student_id <$> biog) coursegrades.
Proof.
  unfold merge_biog.
  destruct (decide (NoDup (biog_student_id <$> biog))) as [Hnd|]; [|discriminate].
  intros [= <-]. split; [exact Hnd|].
  induction biog as [|b biog IH].
  - simpl. symmetry. apply Permutation_nil_r.
    apply elem_of_nil_inv. intros r Hr.
    apply list_elem_of_filter in Hr as [Hr _]. apply elem_of_nil in Hr. exact Hr.
  - rewrite fmap_cons in Hnd. apply NoDup_cons in Hnd as [Hb Hnd].
    rewrite bind_cons, (IH Hnd).
    rewrite <- (filter_or_disjoint (fun r => student_id r = biog_student_id b)
                  (fun r => student_id r ∈ biog_student_id <$> biog)).
    + rewrite (list_filter_iff _
                 (fun r => student_id r ∈ biog_student_id <$> b :: biog));
        [reflexivity|].
      intros r. rewrite fmap_cons, elem_of_cons. reflexivity.
    + intros r Hr Hin. rewrite Hr in Hin. contradiction.
Qed.

(** X13: the roster join fails exactly when a student identifier occurs
    twice in the roster; otherwise it keeps each coursegrade row of a
    student of the roster exactly once and drops the other rows. *)
Theorem merge_biog_rows (biog : list biog_row) (coursegrades : list coursegrade) :
  (merge_biog biog coursegrades = None <->
     ~ NoDup (biog_student_id <$> biog)) /\
  (forall merged, merge_biog biog coursegrades = Some merged ->
     merged ≡ₚ
       filter (fun r => student_id r ∈ biog_student_id <$> biog) coursegrades).
Proof.
  split.
  - unfold merge_biog.
    destruct (decide (NoDup (biog_student_id <$> biog))) as [Hnd|Hnd].
    + split; [discriminate | contradiction].
    + split; auto.
  - intros merged H. apply (merge_biog_Some _ _ _ H).
Qed.

Lemma merge_biog_rows_witness :
  merge_biog [mkBiog (Some 7%Z) "09"; mkBiog (Some 7%Z) "10"]
    [Samples.graded 1 90 None] = None.
Proof.
  apply (proj1 (merge_biog_rows _ _)). intros Hnd.
  apply NoDup_cons in Hnd as [Hnd _]. apply Hnd. left.
Defined.

Lemma yearly_students (df : list coursegrade) (k : option Z) :
  (exists y, y ∈ compute_yearly_totals df /\ yr_student_id y = k) <->
  (exists r, r ∈ df /\ eligible r = true /\ student_id r = k).
Proof.
  split.
  - intros (y & Hy & Hk).
    assert (yr_key y ∈ yr_key <$> compute_yearly_totals df) as Hin
      by apply list_elem_of_fmap_2, Hy.
    rewrite keys_compute_yearly_totals, elem_of_group_keys in Hin.
    destruct Hin as (t & Ht & Hkey).
    apply list_elem_of_fmap in Ht as (r & -> & Hr).
    apply list_elem_of_filter in Hr as [He Hr].
    exists r. split; [exact Hr|]. split; [exact He|].
    rewrite <- Hk. change (student_id r) with (yr_key (row_totals r)).2.
    rewrite Hkey. reflexivity.
  - intros (r & Hr & He & Hk).
    assert ((school_year r, student_id r)
              ∈ yr_key <$> compute_yearly_totals df) as Hin.
    { rewrite keys_compute_yearly_totals, elem_of_group_keys.
      exists (row_totals r). split; [|reflexivity].
      apply list_elem_of_fmap_2, list_elem_of_filter. auto. }
    apply list_elem_of_fmap in Hin as (y & Hkey & Hy).
    exists y. split; [exact Hy|].
    change (yr_student_id y) with (yr_key y).2. rewrite <- Hkey. exact Hk.
Qed.

Lemma compute_cumulative_gpa_Some (coursegrades : list coursegrade)
    (biog : list biog_row) (prev_courses : list (list coursegrade))
    (out : list cumulative_row) :
  compute_cumulative_gpa coursegrades biog prev_courses = Some out <->
  exists merged,
    merge_biog (filter_biog biog) coursegrades = Some merged /\
    out = combine (compute_yearly_totals (force_is_passing merged)
                     :: (compute_yearly_totals <$> prev_courses)).
Proof.
  unfold compute_cumulative_gpa.
  destruct (merge_biog (filter_biog biog) coursegrades) as [merged|]; simpl.
  - split; [intros [= <-]; eauto | intros (m & [= <-] & ->); reflexivity].
  - split; [discriminate | intros (m & [=] & _)].
Qed.

(** X15: a student is in the cumulative output exactly when the student
    has an eligible row in the current year and is in the roster with a
    grade level from 09 to 12, or has an eligible row in a prior year. *)
Theorem pipeline_students (coursegrades : list coursegrade)
    (biog : list biog_row) (prev_courses : list (list coursegrade))
    (out : list cumulative_row) (k : option Z) :
  compute_cumulative_gpa coursegrades biog prev_courses = Some out ->
  (k ∈ cum_student_id <$> out <->
   (k ∈ biog_student_id <$> filter_biog biog /\
    exists r, r ∈ coursegrades /\ eligible r = true /\ student_id r = k) \/
   (exists df r, df ∈ prev_courses /\ r ∈ df /\ eligible r = true /\
                 student_id r = k)).
Proof.
  intros H. apply compute_cumulative_gpa_Some in H as (merged & Hm & ->).
  apply merge_biog_Some in Hm as [_ Hm].
  rewrite keys_combine, elem_of_group_keys.
  assert (forall r, r ∈ merged <->
            student_id r ∈ biog_student_id <$> filter_biog biog /\
            r ∈ coursegrades) as Hmem.
  { intros r. rewrite Hm, list_elem_of_filter. reflexivity. }
  split.
  - intros (y & Hy & Hk). simpl in Hy.
    apply elem_of_app in Hy as [Hy|Hy].
    + left.
      destruct (proj1 (yearly_students (force_is_passing merged) k))
        as (r' & Hr' & He & Hs); [eauto|].
      apply list_elem_of_fmap in Hr' as (r & -> & Hr).
      destruct (force_is_passing_row_fields r) as (_ & Hsid & _ & Helig).
      rewrite Hsid in Hs. rewrite Helig in He.
      apply Hmem in Hr as [Hroster Hr]. rewrite Hs in Hroster. eauto.
    + right. apply list_elem_of_In, in_concat in Hy as (frame & Hf & Hy).
      apply list_elem_of_In, list_elem_of_fmap in Hf as (df & -> & Hdf).
      destruct (proj1 (yearly_students df k)) as (r & Hr & He & Hs).
      { exists y. split; [apply list_elem_of_In, Hy | exact Hk]. }
      eauto 6.
  - intros [(Hroster & r & Hr & He & Hs)|(df & r & Hdf & Hr & He & Hs)].
    + destruct (force_is_passing_row_fields r) as (_ & Hsid & _ & Helig).
      destruct (proj2 (yearly_students (force_is_passing merged) k))
        as (y & Hy & Hk).
      { exists (force_is_passing_row r). split; [|split; congruence].
        apply list_elem_of_fmap_2, Hmem. rewrite Hs. auto. }
      exists y. split; [|exact Hk]. simpl. apply elem_of_app. auto.
    + destruct (proj2 (yearly_students df k)) as (y & Hy & Hk); [eauto|].
      exists y. split; [|exact Hk]. simpl. apply elem_of_app. right.
      apply list_elem_of_In, in_concat. exists (compute_yearly_totals df).
      split; [|apply list_elem_of_In, Hy].
      apply list_elem_of_In, list_elem_of_fmap_2, Hdf.
Qed.

Lemma pipeline_students_witness :
  Some 7%Z ∈ cum_student_id <$>
    default [] (compute_cumulative_gpa [Samples.graded 1 90 None]
                  [mkBiog (Some 7%Z) "09"] []).
Proof.
  remember (compute_cumulative_gpa [Samples.graded 1 90 None]
              [mkBiog (Some 7%Z) "09"] []) as o eqn:E.
  symmetry in E. destruct o as [out|]; [|vm_compute in E; discriminate E].
  simpl. apply (pipeline_students _ _ _ _ _ E). left. split.
  - vm_compute. left.
  - exists (Samples.graded 1 90 None). repeat split. left.
Defined.

(** ** Forcing [is_passing] and deriving the attributes *)

Lemma group_keys_ext {A B K : Type} `{EqDecision K} (le : relation K)
    `{!RelDecision le} (key : A -> K) (key' : B -> K)
    (l : list A) (l' : list B) :
  key <$> l = key' <$> l' -> group_keys key le l = group_keys key' le l'.
Proof. unfold group_keys. intros ->. reflexivity. Qed.

Lemma eligible_rows_fmap (g : coursegrade -> coursegrade) (df : list coursegrade) :
  (forall r, eligible (g r) = eligible r) ->
  eligible_rows (g <$> df) = g <$> eligible_rows df.
Proof.
  intros Hg. unfold eligible_rows. rewrite filter_fmap.
  f_equal. apply list_filter_iff. intros r. rewrite Hg. reflexivity.
Qed.

(** Rows that are changed in columns that a column of the totals does not
    read give the same sums in that column. *)
Lemma yearly_column_ext (col : totals_row -> cell)
    (g : coursegrade -> coursegrade) (df : list coursegrade) :
  (forall r, eligible (g r) = eligible r) ->
  (forall r, yr_key (row_totals (g r)) = yr_key (row_totals r)) ->
  (forall r, col (row_totals (g r)) = col (row_totals r)) ->
  (fun k => sum_min_count 1 (col <$> year_group (g <$> df) k)) <$>
    group_keys yr_key optZ2_le (row_totals <$> eligible_rows (g <$> df)) =
  (fun k => sum_min_count 1 (col <$> year_group df k)) <$>
    group_keys yr_key optZ2_le (row_totals <$> eligible_rows df).
Proof.
  intros He Hk Hc.
  assert (group_keys yr_key optZ2_le (row_totals <$> eligible_rows (g <$> df))
          = group_keys yr_key optZ2_le (row_totals <$> eligible_rows df)) as ->.
  { apply group_keys_ext. rewrite (eligible_rows_fmap g df He).
    rewrite <- !list_fmap_compose. apply list_fmap_ext.
    intros i r _. apply Hk. }
  apply list_fmap_ext. intros i k _. simpl. f_equal.
  unfold year_group, rows_of. rewrite (eligible_rows_fmap g df He).
  rewrite <- list_fmap_compose, !filter_fmap, <- !list_fmap_compose.
  rewrite (list_filter_iff
             (fun r => yr_key ((row_totals ∘ g) r) = k)
             (fun r => yr_key (row_totals r) = k))
    by (intros r; simpl; rewrite Hk; reflexivity).
  apply list_fmap_ext. intros j r _. simpl. apply Hc.
Qed.

Lemma yearly_column (col : totals_row -> cell) (df : list coursegrade) :
  (forall g, col (collapse_year g) = sum_min_count 1 (col <$> g.2)) ->
  col <$> compute_yearly_totals df =
  (fun k => sum_min_count 1 (col <$> year_group df k)) <$>
    group_keys yr_key optZ2_le (row_totals <$> eligible_rows df).
Proof.
  intros Hcol. unfold compute_yearly_totals, groupby, year_group.
  rewrite <- !list_fmap_compose. apply list_fmap_ext.
  intros i k _. simpl. apply Hcol.
Qed.

(** X16: setting [is_passing] to null where the mark is null changes
    neither the keys of the yearly aggregate, nor the attempted credits,
    nor the grade points: only the earned credits can differ. *)
Theorem force_is_passing_keeps_gpa_columns (merged : list coursegrade) :
  (fun y => (yr_key y, tot_cred_att y, tot_gpa_pts y)) <$>
    compute_yearly_totals (force_is_passing merged) =
  (fun y => (yr_key y, tot_cred_att y, tot_gpa_pts y)) <$>
    compute_yearly_totals merged.
Proof.
  assert (forall r, eligible (force_is_passing_row r) = eligible r) as He
    by (intros r; apply force_is_passing_row_fields).
  assert (forall r, yr_key (row_totals (force_is_passing_row r))
                    = yr_key (row_totals r)) as Hk.
  { intros r. destruct (force_is_passing_row_fields r) as (Hy & Hs & _).
    unfold yr_key. simpl. rewrite Hy, Hs. reflexivity. }
  assert (forall r, tot_cred_att (row_totals (force_is_passing_row r))
                    = tot_cred_att (row_totals r)) as Ha
    by (intros r; apply force_is_passing_row_fields).
  assert (forall r, tot_gpa_pts (row_totals (force_is_passing_row r))
                    = tot_gpa_pts (row_totals r)) as Hp.
  { intros r. unfold force_is_passing_row. destruct (isna (mark r)); reflexivity. }
  assert (forall df df' : list totals_row,
             yr_key <$> df = yr_key <$> df' ->
             tot_cred_att <$> df = tot_cred_att <$> df' ->
             tot_gpa_pts <$> df = tot_gpa_pts <$> df' ->
             (fun y => (yr_key y, tot_cred_att y, tot_gpa_pts y)) <$> df =
             (fun y => (yr_key y, tot_cred_att y, tot_gpa_pts y)) <$> df')
    as Hzip.
  { induction df as [|y df IH]; intros [|y' df'] H1 H2 H3;
      try discriminate; [reflexivity|].
    rewrite !fmap_cons in *.
    apply (inj2 cons) in H1 as [E1 H1]. apply (inj2 cons) in H2 as [E2 H2].
    apply (inj2 cons) in H3 as [E3 H3].
    rewrite E1, E2, E3. f_equal. auto. }
  apply Hzip.
  - rewrite !keys_compute_yearly_totals. apply group_keys_ext.
    unfold force_is_passing. rewrite (eligible_rows_fmap _ _ He).
    rewrite <- !list_fmap_compose. apply list_fmap_ext. intros i r _. apply Hk.
  - rewrite !yearly_column by (intros [[k1 k2] g]; reflexivity).
    apply (yearly_column_ext tot_cred_att force_is_passing_row merged He Hk Ha).
  - rewrite !yearly_column by (intros [[k1 k2] g]; reflexivity).
    apply (yearly_column_ext tot_gpa_pts force_is_passing_row merged He Hk Hp).
Qed.

(** X17: deriving the subject and the description changes no total: the
    aggregate of the derived frame is the aggregate of the frame. The
    derivation is idempotent. *)
Theorem derive_keeps_totals (df : list coursegrade) :
  compute_yearly_totals (Deriver.derive_subject_and_description df) =
  compute_yearly_totals df /\
  Deriver.derive_subject_and_description
    (Deriver.derive_subject_and_description df) =
  Deriver.derive_subject_and_description df.
Proof.
  split.
  - unfold compute_yearly_totals, Deriver.derive_subject_and_description.
    change (map Deriver.derive_row df) with (Deriver.derive_row <$> df).
    rewrite (eligible_rows_fmap Deriver.derive_row df) by reflexivity.
    rewrite <- list_fmap_compose.
    rewrite (list_fmap_ext (row_totals ∘ Deriver.derive_row) row_totals
               (eligible_rows df)); [reflexivity|].
    intros i r _. reflexivity.
  - unfold Deriver.derive_subject_and_description.
    rewrite map_map. apply map_ext. intros r. reflexivity.
Qed.

(** ** The rows without a mark *)

Lemma on_roster_filter_biog (biog : list biog_row) (s : option Z) :
  s ∈ biog_student_id <$> filter_biog biog <-> on_roster biog s.
Proof.
  unfold on_roster, filter_biog. rewrite Exists_exists, list_elem_of_fmap.
  assert (forall b, Deriver.isin (grade_level b) ["09"; "10"; "11"; "12"] = true
                    <-> grade_level b ∈ ["09"; "10"; "11"; "12"]) as Hisin.
  { intros b. unfold Deriver.isin. rewrite existsb_exists. split.
    - intros (g & Hg & He). apply String.eqb_eq in He as ->.
      apply list_elem_of_In, Hg.
    - intros Hb. exists (grade_level b). rewrite String.eqb_refl.
      split; [apply list_elem_of_In, Hb | reflexivity]. }
  split.
  - intros (b & -> & Hb). apply list_elem_of_filter in Hb as [Hg Hb].
    exists b. rewrite <- Hisin. auto.
  - intros (b & Hb & <- & Hg). exists b. split; [reflexivity|].
    apply list_elem_of_filter. rewrite Hisin. auto.
Qed.

(** The rows of one student keep, in the joined frame, the order they
    have in the current year's frame. *)
Lemma merged_rows_of_student (bs : list biog_row) (cg : list coursegrade)
    (Q : coursegrade -> Prop) `{forall r, Decision (Q r)} (s : option Z) :
  NoDup (biog_student_id <$> bs) ->
  (forall r, Q r -> student_id r = s) ->
  filter Q (bs ≫= fun b =>
              filter (fun r => student_id r = biog_student_id b) cg) =
  if decide (s ∈ biog_student_id <$> bs) then filter Q cg else [].
Proof.
  intros Hnd HQ. induction bs as [|b bs IH].
  - rewrite decide_False; [reflexivity|]. apply not_elem_of_nil.
  - rewrite fmap_cons in Hnd. apply NoDup_cons in Hnd as [Hb Hnd].
    rewrite bind_cons, filter_app, list_filter_filter, (IH Hnd).
    assert (s ∈ biog_student_id <$> b :: bs <->
            biog_student_id b = s \/ s ∈ biog_student_id <$> bs) as Hcons.
    { rewrite fmap_cons, elem_of_cons. split; intros [?|?]; auto. }
    destruct (decide (biog_student_id b = s)) as [E|E].
    + destruct (decide (s ∈ biog_student_id <$> bs)) as [Hin|_];
        [exfalso; apply Hb; rewrite E; exact Hin|].
      destruct (decide (s ∈ biog_student_id <$> b :: bs)) as [_|Hn];
        [|exfalso; apply Hn, Hcons; auto].
      rewrite app_nil_r. apply list_filter_iff. intros r. split; [tauto|].
      intros Hr. split; [exact Hr|]. rewrite E. apply HQ, Hr.
    + assert (filter (fun r => Q r /\ student_id r = biog_student_id b) cg = [])
        as ->.
      { apply elem_of_nil_inv. intros r Hr.
        apply list_elem_of_filter in Hr as [[Hq Hs] _].
        apply E. rewrite <- Hs. apply HQ, Hq. }
      destruct (decide (s ∈ biog_student_id <$> bs)) as [Hin|Hin];
        destruct (decide (s ∈ biog_student_id <$> b :: bs)) as [Hin'|Hin'];
        try reflexivity; exfalso.
      * apply Hin', Hcons. auto.
      * apply Hcons in Hin' as [?|?]; auto.
Qed.

Lemma force_is_passing_row_included (r : coursegrade) :
  included (force_is_passing_row r) <-> included r.
Proof.
  unfold included, force_is_passing_row. destruct (isna (mark r)); reflexivity.
Qed.

Lemma force_is_passing_row_contributions (r : coursegrade) :
  credits (force_is_passing_row r) = credits r /\
  cred_earned (force_is_passing_row r) = earned_contribution r /\
  gpa_pts (force_is_passing_row r) = gpa_pts r.
Proof.
  unfold force_is_passing_row, earned_contribution, cred_earned.
  destruct (mark r); simpl; repeat split.
  destruct (credits r); reflexivity.
Qed.

(** The rows that count for a key in the frame that reaches the
    aggregator are the rows of the current year that count for it, in
    their order, with [is_passing] forced. *)
Lemma counted_merged (biog : list biog_row) (cg merged : list coursegrade)
    (k : option Z * option Z) :
  merge_biog (filter_biog biog) cg = Some merged ->
  counted (force_is_passing merged) k =
  force_is_passing_row <$> counted_current cg biog k.
Proof.
  unfold merge_biog.
  destruct (decide (NoDup (biog_student_id <$> filter_biog biog)))
    as [Hnd|]; [|discriminate].
  intros [= <-]. unfold counted, force_is_passing.
  rewrite filter_fmap. f_equal.
  rewrite (list_filter_iff _ (fun r => included r /\ year_student r = k)).
  2:{ intros r. rewrite force_is_passing_row_included.
      unfold year_student, force_is_passing_row.
      destruct (isna (mark r)); reflexivity. }
  rewrite (merged_rows_of_student _ cg _ k.2 Hnd).
  2:{ intros r [_ <-]. reflexivity. }
  unfold counted_current.
  destruct (decide (k.2 ∈ biog_student_id <$> filter_biog biog)) as [Hin|Hin].
  - apply list_filter_iff. intros r. split; [|tauto].
    intros [Hi Hk]. split; [|auto].
    apply on_roster_filter_biog. rewrite <- Hk in Hin. exact Hin.
  - symmetry. apply elem_of_nil_inv. intros r Hr.
    apply list_elem_of_filter in Hr as [(Hr & _ & Hk) _].
    apply Hin. rewrite <- Hk. apply on_roster_filter_biog, Hr.
Qed.

(** C8: when the pipeline produces an output, the current-year aggregate
    that goes into the Combiner is the one in which every row of the
    roster's students whose mark is null contributes null to the earned
    credits, whatever its [is_passing], and its credits to the attempted
    credits when it is otherwise included.  The aggregate is determined
    by its keys, which are sorted and those of the included rows of the
    roster's students, and by its totals: the attempted credits and the
    grade points sum the rows' credits and grade points, the earned
    credits sum [credits * is_passing] over the rows that have a mark. *)
Theorem null_mark_row_contribution (coursegrades : list coursegrade)
    (biog : list biog_row) (prev_courses : list (list coursegrade))
    (out : list cumulative_row) :
  compute_cumulative_gpa coursegrades biog prev_courses = Some out ->
  exists current : list totals_row,
    out = combine (current :: (compute_yearly_totals <$> prev_courses)) /\
    NoDup (yr_key <$> current) /\
    StronglySorted optZ2_le (yr_key <$> current) /\
    (forall k, k ∈ yr_key <$> current <->
               counted_current coursegrades biog k <> []) /\
    (forall y, y ∈ current ->
       let rows := counted_current coursegrades biog (yr_key y) in
       tot_cred_att y = sum_min_count 1 (credits <$> rows) /\
       tot_cred_earned y = sum_min_count 1 (earned_contribution <$> rows) /\
       tot_gpa_pts y = sum_min_count 1 (gpa_pts <$> rows)) /\
    (forall r, r ∈ coursegrades -> mark r = None ->
       earned_contribution r = None /\
       (on_roster biog (student_id r) -> included r ->
        r ∈ counted_current coursegrades biog (year_student r) /\
        year_student r ∈ yr_key <$> current)).
Proof.
  intros H. apply compute_cumulative_gpa_Some in H as (merged & Hm & ->).
  exists (compute_yearly_totals (force_is_passing merged)).
  assert (forall k, k ∈ yr_key <$> compute_yearly_totals (force_is_passing merged)
                    <-> counted_current coursegrades biog k <> []) as Hkeys.
  { intros k. rewrite keys_yearly.
    assert ((exists r, r ∈ force_is_passing merged /\ included r /\
                       year_student r = k)
            <-> counted (force_is_passing merged) k <> []) as ->.
    { unfold counted. split.
      - intros (r & Hr & Hi & Hk) E.
        assert (r ∈ filter (fun r => included r /\ year_student r = k)
                      (force_is_passing merged)) as Hin
          by (apply list_elem_of_filter; auto).
        rewrite E in Hin. apply elem_of_nil in Hin. exact Hin.
      - intros Hne.
        destruct (filter (fun r => included r /\ year_student r = k)
                    (force_is_passing merged)) as [|r l] eqn:E; [congruence|].
        assert (r ∈ filter (fun r => included r /\ year_student r = k)
                      (force_is_passing merged)) as Hin by (rewrite E; left).
        apply list_elem_of_filter in Hin as [[Hi Hk] Hr]. eauto. }
    rewrite (counted_merged _ _ _ k Hm).
    split; intros Hne E; apply Hne.
    - rewrite E. reflexivity.
    - apply fmap_nil_inv in E. exact E. }
  split; [reflexivity|]. split; [apply NoDup_keys_yearly|].
  split.
  { rewrite keys_compute_yearly_totals.
    apply StronglySorted_merge_sort; apply _. }
  split; [exact Hkeys|]. split.
  - intros y Hy rows.
    destruct (fields_yearly _ y Hy) as (Ha & He & Hp).
    rewrite Ha, He, Hp, (counted_merged _ _ _ (yr_key y) Hm).
    fold rows. rewrite <- !list_fmap_compose.
    repeat split; f_equal; apply list_fmap_ext; intros i r _; simpl;
      apply force_is_passing_row_contributions.
  - intros r Hr Hmark. split.
    + unfold earned_contribution. rewrite Hmark. reflexivity.
    + intros Hroster Hi.
      assert (r ∈ counted_current coursegrades biog (year_student r)) as Hin
        by (apply list_elem_of_filter; auto).
      split; [exact Hin|]. apply Hkeys. intros E. rewrite E in Hin.
      apply elem_of_nil in Hin. exact Hin.
Qed.

Lemma null_mark_row_contribution_witness :
  exists current y,
    compute_cumulative_gpa
      [Samples.graded 1 90 None; Samples.graded 2 80 (Some "B")]
      [mkBiog (Some 7%Z) "09"] [] = Some (combine [current]) /\
    y ∈ current /\ yr_key y = (Some 2022%Z, Some 7%Z) /\
    tot_cred_att y = Samples.num 3 /\ tot_cred_earned y = Samples.num 2.
Proof.
  destruct (compute_cumulative_gpa
              [Samples.graded 1 90 None; Samples.graded 2 80 (Some "B")]
              [mkBiog (Some 7%Z) "09"] []) as [out|] eqn:E;
    [|vm_compute in E; discriminate E].
  destruct (null_mark_row_contribution _ _ _ _ E)
    as (current & -> & _ & _ & Hkeys & Hfields & Hnull).
  destruct (Hnull (Samples.graded 1 90 None)) as (_ & Hin); [left | reflexivity|].
  destruct Hin as (_ & Hk).
  { apply Exists_cons_hd. split; [reflexivity | left]. }
  { split; eexists; [split; [reflexivity | discriminate] | reflexivity]. }
  apply list_elem_of_fmap in Hk as (y & Hkey & Hy).
  exists current, y. split; [reflexivity|]. split; [exact Hy|].
  split; [symmetry; exact Hkey|].
  destruct (Hfields y Hy) as (Ha & He & _). rewrite Ha, He, <- Hkey.
  split; vm_compute; reflexivity.
Defined.

End PipelineFacts.

(** * The deduplicated flags as a table *)

Module OrderFacts.
Import Order.

Lemma good_lex_pair {A B : Type} (cmpA : A -> A -> comparison)
    (cmpB : B -> B -> comparison) :
  good_compare cmpA -> good_compare cmpB -> good_compare (lex_pair cmpA cmpB).
Proof.
  intros [Ae Ar Aa At] [Be Br Ba Bt]. unfold lex_pair, CourseFlag.lex.
  split.
  - intros [a b] [a' b']. simpl.
    destruct (cmpA a a') eqn:E; try discriminate.
    intros H. rewrite (Ae _ _ E), (Be _ _ H). reflexivity.
  - intros [a b]. simpl. rewrite Ar. apply Br.
  - intros [a b] [a' b']. simpl. rewrite (Aa a a').
    destruct (cmpA a a'); simpl; [apply Ba | reflexivity | reflexivity].
  - intros [a b] [a' b'] [a'' b'']. simpl.
    destruct (cmpA a a') eqn:E1; try discriminate;
      destruct (cmpA a' a'') eqn:E2; try discriminate; intros H1 H2.
    + rewrite (Ae _ _ E1), E2. eauto.
    + rewrite (Ae _ _ E1), E2. reflexivity.
    + rewrite <- (Ae _ _ E2), E1. reflexivity.
    + rewrite (At _ _ _ E1 E2). reflexivity.
Qed.

Lemma good_Z_compare : good_compare Z.compare.
Proof.
  split.
  - apply Z.compare_eq.
  - apply Z.compare_refl.
  - intros a b. apply Z.compare_antisym.
  - intros a b c. rewrite !Z.compare_lt_iff. lia.
Qed.

Lemma ascii_compare_lt_trans (a b c : ascii) :
  Ascii.compare a b = Lt -> Ascii.compare b c = Lt -> Ascii.compare a c = Lt.
Proof. unfold Ascii.compare. rewrite !N.compare_lt_iff. lia. Qed.

Lemma string_compare_lt_trans (a b c : string) :
  String.compare a b = Lt -> String.compare b c = Lt -> String.compare a c = Lt.
Proof.
  revert b c. induction a as [|x a IH]; intros [|y b] [|z c]; simpl;
    try discriminate; try reflexivity.
  destruct (Ascii.compare x y) eqn:E1; try discriminate;
    destruct (Ascii.compare y z) eqn:E2; try discriminate; intros H1 H2.
  - apply Ascii.compare_eq_iff in E1, E2. subst.
    assert (Ascii.compare z z = Eq) as ->
      by (unfold Ascii.compare; apply N.compare_refl).
    eauto.
  - apply Ascii.compare_eq_iff in E1. subst. rewrite E2. reflexivity.
  - apply Ascii.compare_eq_iff in E2. subst. rewrite E1. reflexivity.
  - rewrite (ascii_compare_lt_trans _ _ _ E1 E2). reflexivity.
Qed.

Lemma good_string_compare : good_compare String.compare.
Proof.
  split.
  - apply String.compare_eq_iff.
  - apply CourseFlagFacts.string_compare_refl.
  - intros a b. apply String.compare_antisym.
  - apply string_compare_lt_trans.
Qed.

Section Leb.
Context {A : Type} (cmp : A -> A -> comparison) (Hgood : good_compare cmp).

Lemma leb_of_total (a b : A) : leb_of cmp a b = false -> leb_of cmp b a = true.
Proof.
  unfold leb_of. rewrite (cmp_antisym cmp Hgood a b).
  destruct (cmp a b); simpl; congruence.
Qed.

Lemma leb_of_trans (a b c : A) :
  leb_of cmp a b = true -> leb_of cmp b c = true -> leb_of cmp a c = true.
Proof.
  unfold leb_of.
  destruct (cmp a b) eqn:E1; try discriminate;
    destruct (cmp b c) eqn:E2; try discriminate; intros _ _.
  - rewrite (cmp_eq cmp Hgood _ _ E1), E2. reflexivity.
  - rewrite (cmp_eq cmp Hgood _ _ E1), E2. reflexivity.
  - rewrite <- (cmp_eq cmp Hgood _ _ E2), E1. reflexivity.
  - rewrite (cmp_lt_trans cmp Hgood _ _ _ E1 E2). reflexivity.
Qed.
End Leb.

Section Sorted.
Context {R K : Type} `{EqDecision K} (key : R -> K) (leb : K -> K -> bool).
Hypothesis leb_total : forall a b, leb a b = false -> leb b a = true.
Hypothesis leb_trans :
  forall a b c, leb a b = true -> leb b c = true -> leb a c = true.

Let le (x y : R) : Prop := leb (key x) (key y) = true.

Lemma elem_of_insert_sorted (x y : R) (l : list R) :
  y ∈ Frame.insert_sorted key leb x l <-> y = x \/ y ∈ l.
Proof.
  induction l as [|z l IH]; simpl.
  - rewrite list_elem_of_singleton, elem_of_nil. tauto.
  - destruct (leb (key x) (key z)).
    + rewrite elem_of_cons. tauto.
    + rewrite !elem_of_cons, IH. tauto.
Qed.

Lemma elem_of_sort_values (y : R) (l : list R) :
  y ∈ Frame.sort_values key leb l <-> y ∈ l.
Proof.
  induction l as [|x l IH]; simpl; [reflexivity|].
  rewrite elem_of_insert_sorted, elem_of_cons, IH. reflexivity.
Qed.

Lemma StronglySorted_insert_sorted (x : R) (l : list R) :
  StronglySorted le l -> StronglySorted le (Frame.insert_sorted key leb x l).
Proof.
  induction 1 as [|z l Hl IH Hz]; simpl.
  - repeat constructor.
  - destruct (leb (key x) (key z)) eqn:E.
    + constructor; [constructor; assumption|].
      constructor; [exact E|].
      eapply Forall_impl; [exact Hz|]. intros y Hy.
      exact (leb_trans _ _ _ E Hy).
    + constructor; [exact IH|].
      apply Forall_forall. intros y Hy.
      apply elem_of_insert_sorted in Hy as [->|Hy].
      * apply leb_total, E.
      * rewrite Forall_forall in Hz. apply Hz, Hy.
Qed.

Lemma StronglySorted_sort_values (l : list R) :
  StronglySorted le (Frame.sort_values key leb l).
Proof.
  induction l as [|x l IH]; simpl; [constructor|].
  apply StronglySorted_insert_sorted, IH.
Qed.

Lemma elem_of_drop_duplicates_seen (seen : list K) (l : list R) (y : R) :
  y ∈ Frame.drop_duplicates_seen key seen l -> y ∈ l.
Proof.
  revert seen. induction l as [|x l IH]; intros seen; simpl; [auto|].
  destruct (decide (key x ∈ seen)).
  - intros H. right. eauto.
  - intros H. apply elem_of_cons in H as [->|H]; [left | right; eauto].
Qed.

Lemma StronglySorted_drop_duplicates_seen (seen : list K) (l : list R) :
  StronglySorted le l ->
  StronglySorted le (Frame.drop_duplicates_seen key seen l).
Proof.
  intros Hl. revert seen.
  induction Hl as [|x l Hl IH Hx]; intros seen; simpl; [constructor|].
  destruct (decide (key x ∈ seen)); [apply IH|].
  constructor; [apply IH|].
  apply Forall_forall. intros y Hy.
  apply elem_of_drop_duplicates_seen in Hy.
  rewrite Forall_forall in Hx. apply Hx, Hy.
Qed.

(** Sorting a sorted frame and deduplicating a frame without duplicates
    change nothing. *)
Lemma sort_values_sorted (l : list R) :
  StronglySorted le l -> Frame.sort_values key leb l = l.
Proof.
  induction 1 as [|x l Hl IH Hx]; simpl; [reflexivity|].
  rewrite IH. destruct l as [|y l]; [reflexivity|].
  simpl. apply Forall_cons in Hx as [Hxy _]. unfold le in Hxy.
  rewrite Hxy. reflexivity.
Qed.

Lemma drop_duplicates_seen_NoDup (seen : list K) (l : list R) :
  NoDup (key <$> l) -> (forall x, x ∈ l -> key x ∉ seen) ->
  Frame.drop_duplicates_seen key seen l = l.
Proof.
  revert seen. induction l as [|x l IH]; intros seen Hnd Hseen; [reflexivity|].
  rewrite fmap_cons in Hnd. apply NoDup_cons in Hnd as [Hx Hnd]. simpl.
  rewrite decide_False by (apply Hseen; left). f_equal.
  apply IH; [exact Hnd|]. intros y Hy Hin.
  apply elem_of_cons in Hin as [Hin|Hin].
  - apply Hx. rewrite <- Hin. apply list_elem_of_fmap_2, Hy.
  - apply (Hseen y); [right; exact Hy | exact Hin].
Qed.
End Sorted.

Import CourseFlag.

Lemma key_leb_nested (a b : flag_key) :
  key_leb a b = leb_of nested_compare (nest a) (nest b).
Proof.
  destruct a as [[[[y1 d1] t1] c1] m1], b as [[[[y2 d2] t2] c2] m2].
  reflexivity.
Qed.

Lemma good_nested_compare : good_compare nested_compare.
Proof.
  repeat apply good_lex_pair;
    first [apply good_Z_compare | apply good_string_compare].
Qed.

Lemma key_leb_total (a b : flag_key) :
  key_leb a b = false -> key_leb b a = true.
Proof.
  rewrite !key_leb_nested. apply leb_of_total, good_nested_compare.
Qed.

Lemma key_leb_trans (a b c : flag_key) :
  key_leb a b = true -> key_leb b c = true -> key_leb a c = true.
Proof.
  rewrite !key_leb_nested. apply leb_of_trans, good_nested_compare.
Qed.

(** X22: the deduplicated flags have one row per key, carry exactly the
    keys of the input, are rows of the input, and are in increasing order
    of the key (column by column); deduplicating them again changes
    nothing. *)
Theorem dedupe_courseflag_table (df : list courseflag) :
  NoDup (key_of <$> dedupe_courseflag df) /\
  (forall k, k ∈ key_of <$> dedupe_courseflag df <-> k ∈ key_of <$> df) /\
  (forall r, r ∈ dedupe_courseflag df -> r ∈ df) /\
  StronglySorted (fun r r' => key_leb (key_of r) (key_of r') = true)
    (dedupe_courseflag df) /\
  dedupe_courseflag (dedupe_courseflag df) = dedupe_courseflag df.
Proof.
  assert (NoDup (key_of <$> dedupe_courseflag df)) as Hnd
    by apply AssemblerFacts.NoDup_dedupe_courseflag.
  assert (StronglySorted (fun r r' => key_leb (key_of r) (key_of r') = true)
            (dedupe_courseflag df)) as Hs.
  { apply StronglySorted_drop_duplicates_seen.
    apply (StronglySorted_sort_values key_of key_leb key_leb_total
             key_leb_trans). }
  split; [exact Hnd|]. split; [|split; [|split; [exact Hs|]]].
  - intros k. rewrite !list_elem_of_fmap. split.
    + intros (r & -> & Hr). exists r. split; [reflexivity|].
      apply elem_of_drop_duplicates_seen, elem_of_sort_values in Hr.
      exact Hr.
    + intros (r & -> & Hr).
      assert (is_Some (head (Frame.rows_of key_of (key_of r)
                               (dedupe_courseflag df)))) as [r' Hr'].
      { rewrite AssemblerFacts.head_rows_of_dedupe.
        destruct (Frame.rows_of key_of (key_of r) df) as [|r0 rs] eqn:E;
          [|eexists; reflexivity].
        exfalso. apply (filter_nil_not_elem_of _ _ r E); auto. }
      apply head_Some_elem_of, list_elem_of_filter in Hr' as [Hk Hr'].
      exists r'. auto.
  - intros r Hr.
    apply elem_of_drop_duplicates_seen, elem_of_sort_values in Hr. exact Hr.
  - unfold dedupe_courseflag at 1.
    rewrite (sort_values_sorted key_of key_leb _ Hs).
    apply drop_duplicates_seen_NoDup; [exact Hnd|].
    intros x _. apply not_elem_of_nil.
Qed.

End OrderFacts.

(** * Properties of the float64 cells *)

Module Float64Facts.
Import Frame GroupFacts Float64.

(** ** Rounding never gives the missing value *)

Lemma shr_1_nonneg (mrs : shr_record) :
  (0 <= shr_m mrs)%Z -> (0 <= shr_m (shr_1 mrs))%Z.
Proof.
  destruct mrs as [m r s]. simpl.
  destruct m as [|[p|p|]|[p|p|]]; simpl; lia.
Qed.

Lemma iter_shr_1_nonneg (p : positive) (mrs : shr_record) :
  (0 <= shr_m mrs)%Z -> (0 <= shr_m (SpecFloat.iter_pos shr_1 p mrs))%Z.
Proof.
  revert mrs. induction p as [p IH|p IH|]; intros mrs H; simpl.
  - apply IH, IH, shr_1_nonneg, H.
  - apply IH, IH, H.
  - apply shr_1_nonneg, H.
Qed.

Lemma shr_fexp_nonneg (m e : Z) (l : location) :
  (0 <= m)%Z -> (0 <= shr_m (shr_fexp prec emax m e l).1)%Z.
Proof.
  intros H. unfold shr_fexp, shr.
  assert (shr_m (shr_record_of_loc m l) = m) as Hm
    by (destruct l as [|[| |]]; reflexivity).
  destruct (fexp prec emax (Zdigits2 m + e) - e)%Z; simpl;
    try (rewrite Hm; exact H).
  apply iter_shr_1_nonneg. rewrite Hm. exact H.
Qed.

Lemma round_nearest_even_nonneg (m : Z) (l : location) :
  (0 <= m)%Z -> (0 <= round_nearest_even m l)%Z.
Proof.
  intros H. destruct l as [|[| |]]; simpl; try lia.
  destruct (Z.even m); lia.
Qed.

Lemma binary_round_aux_not_nan (s : bool) (m e : Z) (l : location) :
  (0 <= m)%Z -> is_nan (binary_round_aux prec emax s m e l) = false.
Proof.
  intros H. unfold binary_round_aux.
  pose proof (shr_fexp_nonneg m e l H) as H1.
  destruct (shr_fexp prec emax m e l) as [mrs' e'].
  pose proof (shr_fexp_nonneg
                (round_nearest_even (shr_m mrs') (loc_of_shr_record mrs'))
                e' loc_Exact (round_nearest_even_nonneg _ _ H1)) as H2.
  destruct (shr_fexp prec emax _ e' loc_Exact) as [mrs'' e''].
  simpl in H2. destruct (shr_m mrs'') as [|p|p]; [reflexivity| |lia].
  destruct (e'' <=? emax - prec)%Z; reflexivity.
Qed.

(** A product is the missing value exactly when a factor is, or when an
    infinity meets a zero. *)
Lemma mul_nan (x y : float64) :
  is_nan (mul x y) = is_nan x || is_nan y || inf_times_zero x y.
Proof.
  destruct x as [sx|sx| |sx mx ex], y as [sy|sy| |sy my ey]; try reflexivity.
  unfold mul, SFmul. rewrite binary_round_aux_not_nan; [reflexivity | lia].
Qed.

Lemma to_numeric_nan (parse : string -> float64) (v : value) :
  is_nan (to_numeric parse v) = true <->
  isna v = true \/ exists s, v = Text s /\ is_nan (parse s) = true.
Proof.
  destruct v as [|x|s]; simpl.
  - split; auto.
  - split; [auto | intros [H|(s & H & _)]; [exact H | discriminate H]].
  - split; [eauto|]. intros [H|(s' & H & Hs)]; [discriminate H|].
    injection H as <-. exact Hs.
Qed.

(** C7 (as the code computes it): on a row kept by the filter, the grade
    points are missing exactly when one of the three values is missing
    after the numeric coercion, or an infinity meets a zero in the
    product.  A coerced value is missing when the cell is missing or is
    text that is not a numeral; the numeric equivalent of a kept row is
    not missing, so that only text can make it so. *)
Theorem gpa_points_null_iff (parse : string -> float64) (r : graded_row) :
  eligible r = true ->
  let ne := to_numeric parse (numeric_equivalent r) in
  let cr := to_numeric parse (credits r) in
  let gaf := to_numeric parse (grade_average_factor r) in
  (is_nan (tot_gpa_pts_row parse r) = true <->
     is_nan ne = true \/ is_nan cr = true \/ is_nan gaf = true \/
     inf_times_zero ne cr = true \/ inf_times_zero (mul ne cr) gaf = true) /\
  (is_nan ne = true <->
     exists s, numeric_equivalent r = Text s /\ is_nan (parse s) = true) /\
  (is_nan cr = true <->
     isna (credits r) = true \/
     exists s, credits r = Text s /\ is_nan (parse s) = true) /\
  (is_nan gaf = true <->
     isna (grade_average_factor r) = true \/
     exists s, grade_average_factor r = Text s /\ is_nan (parse s) = true).
Proof.
  intros He ne cr gaf. split; [|split; [|split]].
  - unfold tot_gpa_pts_row. fold ne cr gaf. rewrite !mul_nan.
    rewrite !orb_true_iff. tauto.
  - unfold ne. rewrite to_numeric_nan.
    unfold eligible in He. rewrite negb_true_iff, orb_false_iff in He.
    destruct He as [_ He]. rewrite He. split; [|auto].
    intros [H|H]; [discriminate H | exact H].
  - apply to_numeric_nan.
  - apply to_numeric_nan.
Qed.

Lemma gpa_points_null_iff_witness :
  is_nan (tot_gpa_pts_row (fun _ => nan)
            (mkGradedRow (Num (of_Z 1)) (Num (of_Z 90)) (Text "abc")
               (Num (of_decimal 11 1)))) = true.
Proof.
  apply (proj1 (gpa_points_null_iff (fun _ => nan)
                  (mkGradedRow (Num (of_Z 1)) (Num (of_Z 90)) (Text "abc")
                     (Num (of_decimal 11 1)))
                  eq_refl)).
  right. left. reflexivity.
Defined.

(** C7, refuted as stated: the row is kept by the filter and none of its
    three values is missing, yet its grade points are: the product of the
    grade and the credits overflows to infinity, and infinity times the
    zero factor is the missing value. *)
Lemma gpa_points_null_without_null_value :
  eligible overflow_row = true /\
  isna (numeric_equivalent overflow_row) = false /\
  isna (credits overflow_row) = false /\
  isna (grade_average_factor overflow_row) = false /\
  is_nan (tot_gpa_pts_row (fun _ => nan) overflow_row) = true.
Proof. repeat split; vm_compute; reflexivity. Qed.

(** ** The order of the concatenation *)

Section Sum.
Variable total : list float64 -> float64.

Lemma keys_combine64 (fs : list (list yearly)) :
  cum_student_id <$> combine total fs =
  group_keys student_id optZ_le (concat fs).
Proof.
  unfold combine, groupby.
  rewrite <- !list_fmap_compose.
  rewrite <- (list_fmap_id (group_keys _ _ _)) at 2.
  apply list_fmap_ext. intros i k _. reflexivity.
Qed.

Lemma student_rows_Permutation (fs fs' : list (list yearly)) (s : option Z) :
  fs ≡ₚ fs' -> student_rows fs s ≡ₚ student_rows fs' s.
Proof.
  intros Hp. unfold student_rows.
  rewrite (concat_Permutation _ _ Hp). reflexivity.
Qed.

(** C6 (as the code computes it): for every order of the concatenation
    the output has the same students in the same order, and the record
    of a student collapses the same yearly rows, taken in the order of
    the concatenation.  The outputs are equal when the total of a column
    does not depend on the order of its terms. *)
Theorem combine_order (fs fs' : list (list yearly)) :
  fs ≡ₚ fs' ->
  cum_student_id <$> combine total fs = cum_student_id <$> combine total fs' /\
  Forall2 (fun c c' =>
             exists s,
               student_rows fs s ≡ₚ student_rows fs' s /\
               c = collapse_student total (s, student_rows fs s) /\
               c' = collapse_student total (s, student_rows fs' s))
    (combine total fs) (combine total fs') /\
  ((forall l l', l ≡ₚ l' -> total l = total l') ->
   combine total fs = combine total fs').
Proof.
  intros Hp.
  assert (group_keys student_id optZ_le (concat fs) =
          group_keys student_id optZ_le (concat fs')) as Hk.
  { apply group_keys_Permutation; [apply _ ..|].
    apply concat_Permutation, Hp. }
  split; [rewrite !keys_combine64; exact Hk|]. split.
  - unfold combine, groupby. rewrite <- Hk, <- !list_fmap_compose.
    apply Forall2_fmap, Forall_Forall2_diag, Forall_forall.
    intros s _. exists s. simpl.
    split; [apply student_rows_Permutation, Hp|]. split; reflexivity.
  - intros Htotal. unfold combine, groupby.
    rewrite <- Hk, <- !list_fmap_compose. apply list_fmap_ext.
    intros i s _. simpl. unfold collapse_student, sum_min_count. simpl.
    pose proof (student_rows_Permutation fs fs' s Hp) as Hrows.
    unfold student_rows in Hrows. unfold rows_of.
    assert (forall col : yearly -> float64,
               filter (fun x => is_nan x = false)
                 (col <$> filter (fun y => student_id y = s) (concat fs)) ≡ₚ
               filter (fun x => is_nan x = false)
                 (col <$> filter (fun y => student_id y = s) (concat fs')))
      as Hcol by (intros col; rewrite Hrows; reflexivity).
    rewrite (Htotal _ _ (Hcol tot_cred_att)), (Htotal _ _ (Hcol tot_cred_earned)),
      (Htotal _ _ (Hcol tot_gpa_pts)).
    rewrite (Permutation_length (Hcol tot_cred_att)),
      (Permutation_length (Hcol tot_cred_earned)),
      (Permutation_length (Hcol tot_gpa_pts)).
    reflexivity.
Qed.
End Sum.

Lemma combine_order_witness :
  cum_student_id <$>
    combine running_total [[year_2023]; [year_2021]; [year_2022]] =
  cum_student_id <$>
    combine running_total [[year_2023]; [year_2022]; [year_2021]].
Proof.
  apply (combine_order running_total [[year_2023]; [year_2021]; [year_2022]]
           [[year_2023]; [year_2022]; [year_2021]]).
  apply Permutation_skip, Permutation_swap.
Defined.

(** C6, refuted as stated: with the current year 2023 first, the three
    yearly aggregates of student 7 give 256.79999999999995 grade points
    when the prior year 2021 comes before 2022 and 256.8 when it comes
    after, with the plain running sum and with the compensated one. *)
Lemma combine_depends_on_order :
  [[year_2023]; [year_2021]; [year_2022]] ≡ₚ
    [[year_2023]; [year_2022]; [year_2021]] /\
  combine running_total [[year_2023]; [year_2021]; [year_2022]] <>
    combine running_total [[year_2023]; [year_2022]; [year_2021]] /\
  combine compensated_total [[year_2023]; [year_2021]; [year_2022]] <>
    combine compensated_total [[year_2023]; [year_2022]; [year_2021]].
Proof.
  split; [|split].
  - apply Permutation_skip, Permutation_swap.
  - intros H. vm_compute in H. discriminate H.
  - intros H. vm_compute in H. discriminate H.
Qed.

(** The two totals of the grade points, 256.79999999999995 and 256.8:
    neighbours in [float64]. *)
Example combine_sample_totals :
  cum_tot_gpa_pts <$>
    combine running_total [[year_2023]; [year_2021]; [year_2022]] =
    [S754_finite false 4517673376206028 (-44)] /\
  cum_tot_gpa_pts <$>
    combine running_total [[year_2023]; [year_2022]; [year_2021]] =
    [S754_finite false 4517673376206029 (-44)].
Proof. split; vm_compute; reflexivity. Qed.
End Float64Facts.
